(** * The tic-tac-toe page of [Script.js]

    A shallow embedding of the [TicTacToe] class, in two layers.

    The first layer is the game logic: board, turn order, win and draw
    detection, score tallies, and the deferred restart registered with
    [setTimeout].  Its functions carry the names of the methods.

    The second layer, [Module Page], is the class as a whole: the same
    methods with their statements on the document (cell texts, attributes
    and classes, status line, score displays, toggle buttons) and on the
    audio elements.  None of this flows back into the fields of the
    first layer, as the first theorem about the page shows. *)

From stdpp Require Import base numbers list strings gmap pretty.

(** ** Data model *)

(** [currentPlayer] is only ever assigned the literals ["X"] and ["O"]. *)
Inductive Player := X | O.

(** A board cell holds [""], ["X"] or ["O"]. *)
Inductive Cell := Empty | Mark (p : Player).

#[global] Instance Player_eq_dec : EqDecision Player.
Proof. solve_decision. Defined.

#[global] Instance Cell_eq_dec : EqDecision Cell.
Proof. solve_decision. Defined.

(** The result of [parseInt(cell.dataset.index)]: an integer or [NaN]. *)
Inductive Index := Int (z : Z) | NaN.

(** [this.scores = { X: 0, O: 0, draw: 0 }].  The counters start at zero
    and only ever grow by [++], one per finished round; JS numbers are exact
    on such integers (below 2^53), so they are natural numbers here. *)
Record Scores := mkScores {
  scoreX : nat;
  scoreO : nat;
  scoreDraw : nat
}.

(** An auto-reset callback: one handed to [setTimeout(..., 2000)] by
    [handleWin] or [handleDraw] and not yet run.  Both kinds call
    [this.resetGame()]; they differ in the CSS classes they remove
    afterwards.  The 150 and 200 ms callbacks of the animations only write
    inline styles and are not part of this queue. *)
Inductive Timeout := AfterWin | AfterDraw.

(** The fields of a [TicTacToe] object, together with the auto-reset
    callbacks it has registered with the browser's timer queue (oldest
    first: all of them carry the same delay). *)
Record TicTacToe := mkGame {
  board : list Cell;
  currentPlayer : Player;
  gameIsActive : bool;
  scores : Scores;
  winningCells : list nat;
  timeouts : list Timeout
}.

(** [this.winPatterns] *)
Definition winPatterns : list (list nat) :=
  [ [0; 1; 2];
    [3; 4; 5];
    [6; 7; 8];
    [0; 3; 6];
    [1; 4; 7];
    [2; 5; 8];
    [0; 4; 8];
    [2; 4; 6] ].

(** The state built by the constructor. *)
Definition initial : TicTacToe :=
  {| board := replicate 9 Empty;
     currentPlayer := X;
     gameIsActive := true;
     scores := mkScores 0 0 0;
     winningCells := [];
     timeouts := [] |}.

(** ** Reading and writing the board *)

(** [this.board[index]]: [None] stands for [undefined], which is what a
    JS array yields for a negative, too large or [NaN] index. *)
Definition board_get (b : list Cell) (index : Index) : option Cell :=
  match index with
  | Int z => if (0 <=? z)%Z then b !! Z.to_nat z else None
  | NaN => None
  end.

(** [this.board[index] = v].  The only assignment in the source is
    guarded by [this.board[index] === ""], so it always hits an existing
    element; outside the array the list is left as it is. *)
Definition board_set (b : list Cell) (index : Index) (v : Cell) : list Cell :=
  match index with
  | Int z => if (0 <=? z)%Z then <[Z.to_nat z := v]> b else b
  | NaN => b
  end.

(** Truthiness of a value read from the board: [undefined] and [""] are
    falsy, ["X"] and ["O"] are truthy. *)
Definition truthy (v : option Cell) : bool :=
  match v with
  | Some (Mark _) => true
  | _ => false
  end.

(** [v === w] on values read from the board. *)
Definition strict_eq (v w : option Cell) : bool := bool_decide (v = w).

(** ** Operations *)

Definition set_board (b : list Cell) (g : TicTacToe) : TicTacToe :=
  mkGame b (currentPlayer g) (gameIsActive g) (scores g) (winningCells g) (timeouts g).
Definition set_currentPlayer (p : Player) (g : TicTacToe) : TicTacToe :=
  mkGame (board g) p (gameIsActive g) (scores g) (winningCells g) (timeouts g).
Definition set_gameIsActive (a : bool) (g : TicTacToe) : TicTacToe :=
  mkGame (board g) (currentPlayer g) a (scores g) (winningCells g) (timeouts g).
Definition set_scores (s : Scores) (g : TicTacToe) : TicTacToe :=
  mkGame (board g) (currentPlayer g) (gameIsActive g) s (winningCells g) (timeouts g).
Definition set_winningCells (w : list nat) (g : TicTacToe) : TicTacToe :=
  mkGame (board g) (currentPlayer g) (gameIsActive g) (scores g) w (timeouts g).
Definition set_timeouts (t : list Timeout) (g : TicTacToe) : TicTacToe :=
  mkGame (board g) (currentPlayer g) (gameIsActive g) (scores g) (winningCells g) t.

(** The test of [checkWin]'s loop body on one pattern, after
    [const [a, b, c] = pattern]. *)
Definition pattern_matches (brd : list Cell) (pattern : list nat) : bool :=
  match pattern with
  | a :: b :: c :: _ =>
      truthy (brd !! a)
      && strict_eq (brd !! a) (brd !! b)
      && strict_eq (brd !! a) (brd !! c)
  | _ => false
  end.

(** The [for (let pattern of this.winPatterns)] loop of [checkWin]:
    [Some pattern] when the loop returns [true] at [pattern], [None] when
    it runs to the end and [checkWin] returns [false]. *)
Fixpoint checkWin_loop (brd : list Cell) (patterns : list (list nat))
  : option (list nat) :=
  match patterns with
  | [] => None
  | pattern :: rest =>
      if pattern_matches brd pattern then Some pattern
      else checkWin_loop brd rest
  end.

(** [checkWin()]: the returned boolean and the object afterwards. *)
Definition checkWin (g : TicTacToe) : bool * TicTacToe :=
  match checkWin_loop (board g) winPatterns with
  | Some pattern => (true, set_winningCells pattern g)
  | None => (false, g)
  end.

(** [this.scores[this.currentPlayer]++] *)
Definition score_incr (p : Player) (s : Scores) : Scores :=
  match p with
  | X => mkScores (S (scoreX s)) (scoreO s) (scoreDraw s)
  | O => mkScores (scoreX s) (S (scoreO s)) (scoreDraw s)
  end.

(** [this.scores[p]] *)
Definition score_of (p : Player) (s : Scores) : nat :=
  match p with
  | X => scoreX s
  | O => scoreO s
  end.

(** [handleWin()], on the fields of the object.  The callback is
    registered after [highlightWinningCells()] has returned, as it does
    whenever the node list holds the winning cells; what happens
    otherwise is part of [Page.handleWin]. *)
Definition handleWin (g : TicTacToe) : TicTacToe :=
  let g := set_gameIsActive false g in
  let g := set_scores (score_incr (currentPlayer g) (scores g)) g in
  set_timeouts (timeouts g ++ [AfterWin]) g.

(** [handleDraw()] *)
Definition handleDraw (g : TicTacToe) : TicTacToe :=
  let g := set_gameIsActive false g in
  let g := set_scores
             (mkScores (scoreX (scores g)) (scoreO (scores g))
                       (S (scoreDraw (scores g)))) g in
  set_timeouts (timeouts g ++ [AfterDraw]) g.

(** [this.currentPlayer === "X" ? "O" : "X"] *)
Definition other (p : Player) : Player :=
  match p with
  | X => O
  | O => X
  end.

(** [this.board.every((c) => c !== "")] *)
Definition board_full (brd : list Cell) : bool :=
  forallb (fun c => bool_decide (c ≠ Empty)) brd.

(** The guard of [handleCellClick]:
    [this.board[index] === "" && this.gameIsActive]. *)
Definition move_is_valid (g : TicTacToe) (index : Index) : bool :=
  strict_eq (board_get (board g) index) (Some Empty) && gameIsActive g.

(** [handleCellClick(event)], where [index] is what [parseInt] made of
    the clicked cell's [data-index]. *)
Definition handleCellClick (index : Index) (g : TicTacToe) : TicTacToe :=
  if move_is_valid g index then
    let g := set_board (board_set (board g) index (Mark (currentPlayer g))) g in
    let '(won, g) := checkWin g in
    if won then handleWin g
    else if board_full (board g) then handleDraw g
    else set_currentPlayer (other (currentPlayer g)) g
  else g.

(** [resetGame()]; [Array.prototype.fill] overwrites every element and
    keeps the length. *)
Definition resetGame (g : TicTacToe) : TicTacToe :=
  let g := set_board (replicate (length (board g)) Empty) g in
  let g := set_currentPlayer X g in
  let g := set_gameIsActive true g in
  set_winningCells [] g.

(** [resetAll()] *)
Definition resetAll (g : TicTacToe) : TicTacToe :=
  let g := set_scores (mkScores 0 0 0) g in
  resetGame g.

(** The body of either [setTimeout] callback, as far as the modelled
    fields go: [this.resetGame()]. *)
Definition runTimeout (t : Timeout) (g : TicTacToe) : TicTacToe :=
  match t with
  | AfterWin => resetGame g
  | AfterDraw => resetGame g
  end.

(** ** The page as a transition system *)

(** What can happen to the object once it is constructed: a click on a
    cell, on the restart button, on the reset-all button, or the oldest
    pending timer firing. *)
Inductive Event :=
  | CellClick (index : Index)
  | RestartClick
  | ResetAllClick
  | TimerFires.

(** The handler the page runs for an event.  A timer can only fire if
    one is pending; with an empty queue there is nothing to run. *)
Definition dispatch (e : Event) (g : TicTacToe) : TicTacToe :=
  match e with
  | CellClick index => handleCellClick index g
  | RestartClick => resetGame g
  | ResetAllClick => resetAll g
  | TimerFires =>
      match timeouts g with
      | t :: rest => runTimeout t (set_timeouts rest g)
      | [] => g
      end
  end.

(** The object after a sequence of events, oldest first. *)
Definition run (es : list Event) (g : TicTacToe) : TicTacToe :=
  foldl (fun g e => dispatch e g) g es.

(** A run of cell clicks, in order. *)
Definition clicks (l : list Index) (g : TicTacToe) : TicTacToe :=
  foldl (fun g index => handleCellClick index g) g l.

(** ** The phase of the game

    The object has no phase field; the phase is read off
    [gameIsActive], [winningCells] (set by [checkWin] exactly when it
    finds a line, cleared by [resetGame]) and [currentPlayer]. *)
Inductive GamePhase := InProgress | Won (p : Player) | Draw.

Definition phase (g : TicTacToe) : GamePhase :=
  if gameIsActive g then InProgress
  else match winningCells g with
       | [] => Draw
       | _ :: _ => Won (currentPlayer g)
       end.

(** Number of cells carrying the mark of [p]. *)
Definition count_mark (p : Player) (brd : list Cell) : nat :=
  length (filter (fun c => c = Mark p) brd).

(** Number of non-empty cells. *)
Definition count_filled (brd : list Cell) : nat :=
  length (filter (fun c => c ≠ Empty) brd).

(** A pattern is a completed line for [p] when each of its cells holds
    the mark of [p]. *)
Definition line_of (p : Player) (brd : list Cell) (pattern : list nat) : Prop :=
  Forall (fun k => brd !! k = Some (Mark p)) pattern.

(** The board shows a completed line: one of the eight patterns has its
    three cells non-empty and equal. *)
Definition has_line (brd : list Cell) : Prop :=
  ∃ pattern p, pattern ∈ winPatterns ∧ line_of p brd pattern.

(** The start of a round: what the constructor and [resetGame] leave
    behind, whatever the scores and pending timers. *)
Definition fresh (g : TicTacToe) : Prop :=
  board g = replicate 9 Empty ∧ currentPlayer g = X ∧
  gameIsActive g = true ∧ winningCells g = [].

(** The players who made the accepted moves of a run of clicks, in
    order: a click that passes the guard is a move of [currentPlayer]. *)
Fixpoint movers (l : list Index) (g : TicTacToe) : list Player :=
  match l with
  | [] => []
  | index :: l =>
      (if move_is_valid g index then [currentPlayer g] else [])
      ++ movers l (handleCellClick index g)
  end.

(** [n] players taking turns, [p] first. *)
Fixpoint alternating (n : nat) (p : Player) : list Player :=
  match n with
  | 0 => []
  | S n => p :: alternating n (other p)
  end.

(** Every click of the run passes the guard and leaves a board without
    a completed line. *)
Fixpoint valid_moves_without_line (l : list Index) (g : TicTacToe) : Prop :=
  match l with
  | [] => True
  | index :: l =>
      move_is_valid g index = true ∧
      ¬ has_line (board (handleCellClick index g)) ∧
      valid_moves_without_line l (handleCellClick index g)
  end.

(** An index that names one of the nine cells. *)
Definition in_range (index : Index) : Prop :=
  ∃ z, index = Int z ∧ (0 <= z <= 8)%Z.

(** The clicked cell exists and already carries a mark. *)
Definition occupied (g : TicTacToe) (index : Index) : Prop :=
  ∃ p, board_get (board g) index = Some (Mark p).

(** The surplus of X marks over O marks when it is [p]'s turn. *)
Definition lead (p : Player) : nat :=
  match p with
  | X => 0
  | O => 1
  end.

(** While the game is in progress the surplus of X marks is decided by
    whose turn it is; at all times it is zero or one. *)
Definition balanced (g : TicTacToe) : Prop :=
  (gameIsActive g = true ->
   count_mark X (board g) = count_mark O (board g) + lead (currentPlayer g)) ∧
  (count_mark X (board g) = count_mark O (board g) ∨
   count_mark X (board g) = S (count_mark O (board g))).

(** The shape every reachable state has: nine cells, and no winning
    cells recorded while the game is in progress. *)
Definition wellformed (g : TicTacToe) : Prop :=
  length (board g) = 9 ∧ (gameIsActive g = true -> winningCells g = []).

(** The board once [currentPlayer] has marked the cell at [index]. *)
Definition marked (g : TicTacToe) (index : Index) : list Cell :=
  board_set (board g) index (Mark (currentPlayer g)).

(** The rows, columns and diagonals of the 3x3 board, by cell index. *)
Definition row (r : nat) : list nat := [3 * r; 3 * r + 1; 3 * r + 2].
Definition column (c : nat) : list nat := [c; c + 3; c + 6].
Definition diagonals : list (list nat) := [ [0; 4; 8]; [2; 4; 6] ].

(** Rounds finished since the counters were last zeroed. *)
Definition total_score (s : Scores) : nat := scoreX s + scoreO s + scoreDraw s.

(** The step from [g] to [g'] ended a round. *)
Definition round_ended (g g' : TicTacToe) : bool :=
  gameIsActive g && negb (gameIsActive g').

(** How the phase relates to the board: a game in progress shows no
    completed line and has an empty cell; a won game records a pattern
    whose cells carry the winner's mark, and every completed line is the
    winner's; a drawn game shows a full board without a completed line. *)
Definition consistent (g : TicTacToe) : Prop :=
  match phase g with
  | InProgress => ¬ has_line (board g) ∧ board_full (board g) = false
  | Won p =>
      winningCells g ∈ winPatterns ∧ line_of p (board g) (winningCells g) ∧
      ∀ pattern q, pattern ∈ winPatterns -> line_of q (board g) pattern -> q = p
  | Draw => ¬ has_line (board g) ∧ board_full (board g) = true
  end.

(** * The page around the engine

    The rest of the class: what the handlers do to the document and to
    the audio elements.  A page state carries the object ([this]), its two
    toggles, the elements the constructor looks up (the nine [.cell]
    elements, the status line, the three score displays, the two toggle
    buttons; they are taken to exist, as the handlers use them
    unguarded), and the calls made on the audio elements so far.

    Left out are inline styles (the click and toggle animations with
    their short timers, the hover colour, the background set by
    [resetGame]) and the [updated] class of the score displays: nothing
    modelled reads them. *)

(** The JS string for a player and for a board cell. *)
Definition player_str (p : Player) : string :=
  match p with
  | X => "X"
  | O => "O"
  end.

Definition cell_str (c : Cell) : string :=
  match c with
  | Empty => ""
  | Mark p => player_str p
  end.

(** [toLowerCase], on strings of ASCII characters. *)
Definition ascii_toLowerCase (a : Ascii.ascii) : Ascii.ascii :=
  let n := Ascii.nat_of_ascii a in
  if (65 <=? n) && (n <=? 90) then Ascii.ascii_of_nat (n + 32) else a.

Fixpoint toLowerCase (s : string) : string :=
  match s with
  | EmptyString => EmptyString
  | String a s => String (ascii_toLowerCase a) (toLowerCase s)
  end.

Module Page.

(** The keys of [this.sounds]. *)
Inductive Sound := move | win | draw | music.

(** A call on an audio element. *)
Inductive AudioCall :=
  | SetCurrentTime (s : Sound)   (* s.currentTime = 0 *)
  | SetVolume (s : Sound)        (* s.volume = 0.3 *)
  | Play (s : Sound)             (* s.play() *)
  | Pause (s : Sound).           (* s.pause() *)

(** A [.cell] element: what [parseInt] makes of its [data-index]
    attribute (which no handler writes), its text, its [data-player]
    attribute and its class list. *)
Record CellElement := mkCell {
  dataIndex : Index;
  textContent : string;
  dataPlayer : option string;
  classList : gset string
}.

Record t := mk {
  this : TicTacToe;
  soundEnabled : bool;
  musicEnabled : bool;
  cells : list CellElement;
  statusText : string;
  statusClassList : gset string;
  scoreXText : string;
  scoreOText : string;
  scoreDrawText : string;
  soundToggleText : string;
  musicToggleText : string;
  calls : list AudioCall
}.

Definition set_this (g : TicTacToe) (pg : t) : t :=
  mk g (soundEnabled pg) (musicEnabled pg) (cells pg) (statusText pg)
     (statusClassList pg) (scoreXText pg) (scoreOText pg) (scoreDrawText pg)
     (soundToggleText pg) (musicToggleText pg) (calls pg).
Definition set_soundEnabled (b : bool) (pg : t) : t :=
  mk (this pg) b (musicEnabled pg) (cells pg) (statusText pg)
     (statusClassList pg) (scoreXText pg) (scoreOText pg) (scoreDrawText pg)
     (soundToggleText pg) (musicToggleText pg) (calls pg).
Definition set_musicEnabled (b : bool) (pg : t) : t :=
  mk (this pg) (soundEnabled pg) b (cells pg) (statusText pg)
     (statusClassList pg) (scoreXText pg) (scoreOText pg) (scoreDrawText pg)
     (soundToggleText pg) (musicToggleText pg) (calls pg).
Definition set_cells (cs : list CellElement) (pg : t) : t :=
  mk (this pg) (soundEnabled pg) (musicEnabled pg) cs (statusText pg)
     (statusClassList pg) (scoreXText pg) (scoreOText pg) (scoreDrawText pg)
     (soundToggleText pg) (musicToggleText pg) (calls pg).
Definition set_statusText (s : string) (pg : t) : t :=
  mk (this pg) (soundEnabled pg) (musicEnabled pg) (cells pg) s
     (statusClassList pg) (scoreXText pg) (scoreOText pg) (scoreDrawText pg)
     (soundToggleText pg) (musicToggleText pg) (calls pg).
Definition set_statusClassList (c : gset string) (pg : t) : t :=
  mk (this pg) (soundEnabled pg) (musicEnabled pg) (cells pg) (statusText pg)
     c (scoreXText pg) (scoreOText pg) (scoreDrawText pg)
     (soundToggleText pg) (musicToggleText pg) (calls pg).
Definition set_scoreXText (s : string) (pg : t) : t :=
  mk (this pg) (soundEnabled pg) (musicEnabled pg) (cells pg) (statusText pg)
     (statusClassList pg) s (scoreOText pg) (scoreDrawText pg)
     (soundToggleText pg) (musicToggleText pg) (calls pg).
Definition set_scoreOText (s : string) (pg : t) : t :=
  mk (this pg) (soundEnabled pg) (musicEnabled pg) (cells pg) (statusText pg)
     (statusClassList pg) (scoreXText pg) s (scoreDrawText pg)
     (soundToggleText pg) (musicToggleText pg) (calls pg).
Definition set_scoreDrawText (s : string) (pg : t) : t :=
  mk (this pg) (soundEnabled pg) (musicEnabled pg) (cells pg) (statusText pg)
     (statusClassList pg) (scoreXText pg) (scoreOText pg) s
     (soundToggleText pg) (musicToggleText pg) (calls pg).
Definition set_soundToggleText (s : string) (pg : t) : t :=
  mk (this pg) (soundEnabled pg) (musicEnabled pg) (cells pg) (statusText pg)
     (statusClassList pg) (scoreXText pg) (scoreOText pg) (scoreDrawText pg)
     s (musicToggleText pg) (calls pg).
Definition set_musicToggleText (s : string) (pg : t) : t :=
  mk (this pg) (soundEnabled pg) (musicEnabled pg) (cells pg) (statusText pg)
     (statusClassList pg) (scoreXText pg) (scoreOText pg) (scoreDrawText pg)
     (soundToggleText pg) s (calls pg).
Definition set_calls (c : list AudioCall) (pg : t) : t :=
  mk (this pg) (soundEnabled pg) (musicEnabled pg) (cells pg) (statusText pg)
     (statusClassList pg) (scoreXText pg) (scoreOText pg) (scoreDrawText pg)
     (soundToggleText pg) (musicToggleText pg) c.

Definition set_textContent (s : string) (c : CellElement) : CellElement :=
  mkCell (dataIndex c) s (dataPlayer c) (classList c).
Definition set_dataPlayer (a : option string) (c : CellElement) : CellElement :=
  mkCell (dataIndex c) (textContent c) a (classList c).
Definition set_classList (cl : gset string) (c : CellElement) : CellElement :=
  mkCell (dataIndex c) (textContent c) (dataPlayer c) cl.

(** An assignment to a field of [this]. *)
Definition on_this (f : TicTacToe -> TicTacToe) (pg : t) : t :=
  set_this (f (this pg)) pg.

(** A statement on the element [this.cells[k]]. *)
Definition on_cell (k : nat) (f : CellElement -> CellElement) (pg : t) : t :=
  set_cells (alter f k (cells pg)) pg.

(** Calls on audio elements, in order. *)
Definition call (cs : list AudioCall) (pg : t) : t :=
  set_calls (calls pg ++ cs) pg.

(** The element [document.getElementById(`score${p}`)]: its text. *)
Definition set_scoreText (p : Player) (s : string) (pg : t) : t :=
  match p with
  | X => set_scoreXText s pg
  | O => set_scoreOText s pg
  end.

(** [updateStatus(message)] *)
Definition updateStatus (message : string) (pg : t) : t :=
  set_statusText message pg.

(** The template literal [`Player ${p}'s turn`]. *)
Definition turn_message (p : Player) : string :=
  "Player " +:+ player_str p +:+ "'s turn".

(** [playBackgroundMusic()] *)
Definition playBackgroundMusic (pg : t) : t :=
  if musicEnabled pg then call [SetVolume music; Play music] pg else pg.

(** [playSound(sound)], for an audio element that exists. *)
Definition playSound (sound : Sound) (pg : t) : t :=
  if soundEnabled pg then call [SetCurrentTime sound; Play sound] pg else pg.

(** The [forEach] of [highlightWinningCells()].  [this.cells[index]] is
    [undefined] past the end of the node list, and reading its
    [classList] throws: [None]. *)
Fixpoint highlight_loop (indices : list nat) (cs : list CellElement)
  : option (list CellElement) :=
  match indices with
  | [] => Some cs
  | index :: rest =>
      match cs !! index with
      | Some cell =>
          highlight_loop rest
            (<[index := set_classList (classList cell ∪ {["winning-cell"%string]})
                          cell]> cs)
      | None => None
      end
  end.

(** [highlightWinningCells()] *)
Definition highlightWinningCells (pg : t) : option t :=
  match highlight_loop (winningCells (this pg)) (cells pg) with
  | Some cs => Some (set_cells cs pg)
  | None => None
  end.

(** [handleWin()]; [None] when it throws. *)
Definition handleWin (pg : t) : option t :=
  let pg := on_this (set_gameIsActive false) pg in
  let player := currentPlayer (this pg) in
  let pg := updateStatus ("🎉 Player " +:+ player_str player +:+ " wins! 🎉") pg in
  let pg := set_statusClassList (statusClassList pg ∪ {["win"%string]}) pg in
  let pg := on_this (fun g => set_scores (score_incr player (scores g)) g) pg in
  let pg := set_scoreText player (pretty (score_of player (scores (this pg)))) pg in
  match highlightWinningCells pg with
  | None => None
  | Some pg =>
      let pg :=
        if soundEnabled pg then
          let pg := if musicEnabled pg then call [Pause music] pg else pg in
          call [SetCurrentTime win; Play win] pg
        else pg in
      Some (on_this (fun g => set_timeouts (timeouts g ++ [AfterWin]) g) pg)
  end.

(** [handleDraw()] *)
Definition handleDraw (pg : t) : t :=
  let pg := on_this (set_gameIsActive false) pg in
  let pg := updateStatus "🤝 It's a draw!" pg in
  let pg := on_this
              (fun g => set_scores
                          (mkScores (scoreX (scores g)) (scoreO (scores g))
                                    (S (scoreDraw (scores g)))) g) pg in
  let pg := set_scoreDrawText (pretty (scoreDraw (scores (this pg)))) pg in
  let pg := if soundEnabled pg then call [SetCurrentTime draw; Play draw] pg
            else pg in
  on_this (fun g => set_timeouts (timeouts g ++ [AfterDraw]) g) pg.

(** The body of the [forEach] in [resetGame()]. *)
Definition reset_cell (c : CellElement) : CellElement :=
  let c := set_textContent "" c in
  let c := set_dataPlayer None c in
  set_classList
    (classList c ∖ {["player-x"%string; "player-o"%string; "winning-cell"%string]})
    c.

(** [resetGame()] *)
Definition resetGame (pg : t) : t :=
  let pg := on_this
              (fun g => set_board (replicate (length (board g)) Empty) g) pg in
  let pg := on_this (set_currentPlayer X) pg in
  let pg := on_this (set_gameIsActive true) pg in
  let pg := on_this (set_winningCells []) pg in
  let pg := set_cells (reset_cell <$> cells pg) pg in
  let pg := updateStatus (turn_message (currentPlayer (this pg))) pg in
  if musicEnabled pg then playBackgroundMusic pg else pg.

(** [resetAll()] *)
Definition resetAll (pg : t) : t :=
  let pg := on_this (set_scores (mkScores 0 0 0)) pg in
  let pg := set_scoreXText "0" pg in
  let pg := set_scoreOText "0" pg in
  let pg := set_scoreDrawText "0" pg in
  resetGame pg.

(** The first part of the body of [handleCellClick]'s [if], for a click
    on [cell], the [k]-th cell element: the statements from the start of
    the music to [playSound], which mark the board and the element. *)
Definition marked (k : nat) (musicPaused : bool) (cell : CellElement) (pg : t)
  : t :=
  let pg := if musicEnabled pg && musicPaused
            then playBackgroundMusic pg else pg in
  let player := currentPlayer (this pg) in
  let pg := on_this
              (fun g => set_board
                          (board_set (board g) (dataIndex cell) (Mark player)) g)
              pg in
  let pg := on_cell k (set_textContent (player_str player)) pg in
  let pg := on_cell k (set_dataPlayer (Some (player_str player))) pg in
  let pg := on_cell k
              (fun c => set_classList
                          (classList c
                           ∪ {["player-" +:+ toLowerCase (player_str player)]})
                          c) pg in
  playSound move pg.

(** [handleCellClick(event)] for a click on [this.cells[k]], where
    [musicPaused] is what [this.sounds.music.paused] reads at that
    moment.  Without a [k]-th cell element there is no such click, and the
    page stays as it is. *)
Definition handleCellClick (k : nat) (musicPaused : bool) (pg : t) : option t :=
  match cells pg !! k with
  | None => Some pg
  | Some cell =>
      if strict_eq (board_get (board (this pg)) (dataIndex cell)) (Some Empty)
         && gameIsActive (this pg)
      then
        let pg := marked k musicPaused cell pg in
        let '(won, g) := checkWin (this pg) in
        let pg := set_this g pg in
        if won then handleWin pg
        else if board_full (board (this pg)) then Some (handleDraw pg)
        else
          let pg := on_this (set_currentPlayer (other (currentPlayer (this pg)))) pg in
          Some (updateStatus (turn_message (currentPlayer (this pg))) pg)
      else Some pg
  end.

(** [toggleSound()] *)
Definition toggleSound (pg : t) : t :=
  let pg := set_soundEnabled (negb (soundEnabled pg)) pg in
  set_soundToggleText (if soundEnabled pg then "🔊" else "🔇") pg.

(** [toggleMusic()] *)
Definition toggleMusic (pg : t) : t :=
  let pg := set_musicEnabled (negb (musicEnabled pg)) pg in
  let pg := set_musicToggleText (if musicEnabled pg then "🎵" else "🔇") pg in
  if musicEnabled pg then playBackgroundMusic pg else call [Pause music] pg.

(** The callbacks handed to [setTimeout(..., 2000)]. *)
Definition runTimeout (tm : Timeout) (pg : t) : t :=
  match tm with
  | AfterWin =>
      let pg := resetGame pg in
      set_statusClassList (statusClassList pg ∖ {["win"%string]}) pg
  | AfterDraw => resetGame pg
  end.

(** [init()], as far as it changes the page: the listeners it registers
    are the events below. *)
Definition init (pg : t) : t :=
  let pg := updateStatus (turn_message (currentPlayer (this pg))) pg in
  playBackgroundMusic pg.

(** [new TicTacToe()] on a document [html]: the fields of [html] other
    than the elements are overwritten. *)
Definition construct (html : t) : t :=
  let pg := set_this initial html in
  let pg := set_soundEnabled true pg in
  let pg := set_musicEnabled true pg in
  init (set_calls [] pg).

(** What can happen to the page. *)
Inductive Event :=
  | CellClick (k : nat) (musicPaused : bool)
  | RestartClick
  | ResetAllClick
  | SoundToggleClick
  | MusicToggleClick
  | TimerFires.

Definition dispatch (e : Event) (pg : t) : option t :=
  match e with
  | CellClick k musicPaused => handleCellClick k musicPaused pg
  | RestartClick => Some (resetGame pg)
  | ResetAllClick => Some (resetAll pg)
  | SoundToggleClick => Some (toggleSound pg)
  | MusicToggleClick => Some (toggleMusic pg)
  | TimerFires =>
      match timeouts (this pg) with
      | tm :: rest =>
          Some (runTimeout tm (on_this (set_timeouts rest) pg))
      | [] => Some pg
      end
  end.

(** The page after a sequence of events; [None] once a handler has
    thrown. *)
Fixpoint run (es : list Event) (pg : t) : option t :=
  match es with
  | [] => Some pg
  | e :: es =>
      match dispatch e pg with
      | Some pg => run es pg
      | None => None
      end
  end.

End Page.

(** The event of the engine behind an event of the page, if any: a
    click on the [k]-th cell is a click with that cell's index. *)
Definition engine_event (cs : list Page.CellElement) (e : Page.Event)
  : option Event :=
  match e with
  | Page.CellClick k _ =>
      match cs !! k with
      | Some cell => Some (CellClick (Page.dataIndex cell))
      | None => None
      end
  | Page.RestartClick => Some RestartClick
  | Page.ResetAllClick => Some ResetAllClick
  | Page.SoundToggleClick => None
  | Page.MusicToggleClick => None
  | Page.TimerFires => Some TimerFires
  end.

(** The run of engine events behind a run of page events. *)
Definition engine_events (cs : list Page.CellElement) (es : list Page.Event)
  : list Event :=
  omap (engine_event cs) es.

(** A document as the page expects it: nine empty cells numbered in
    order, the counters shown as zero. *)
Definition blank_cell (k : nat) : Page.CellElement :=
  Page.mkCell (Int (Z.of_nat k)) "" None {["cell"%string]}.

Definition blank_html : Page.t :=
  Page.mk initial true true (blank_cell <$> seq 0 9)
    "" ∅ "0" "0" "0" "🔊" "🎵" [].


(** A cell element after an accepted click by [p]. *)
Definition marked_cell (p : Player) (c : Page.CellElement) : Page.CellElement :=
  Page.mkCell (Page.dataIndex c) (player_str p) (Some (player_str p))
    (Page.classList c ∪ {["player-" +:+ toLowerCase (player_str p)]}).

(** A cell element after [highlightWinningCells] has visited it. *)
Definition highlighted (c : Page.CellElement) : Page.CellElement :=
  Page.set_classList (Page.classList c ∪ {["winning-cell"%string]}) c.

(** The calls an accepted click makes before the outcome is decided. *)
Definition click_calls (pg : Page.t) (musicPaused : bool) : list Page.AudioCall :=
  (if Page.musicEnabled pg && musicPaused
   then [Page.SetVolume Page.music; Page.Play Page.music] else [])
  ++ (if Page.soundEnabled pg
      then [Page.SetCurrentTime Page.move; Page.Play Page.move] else []).

(** The calls [handleWin] makes. *)
Definition win_calls (pg : Page.t) : list Page.AudioCall :=
  if Page.soundEnabled pg
  then (if Page.musicEnabled pg then [Page.Pause Page.music] else [])
       ++ [Page.SetCurrentTime Page.win; Page.Play Page.win]
  else [].

(** The calls [resetGame] makes. *)
Definition reset_calls (pg : Page.t) : list Page.AudioCall :=
  if Page.musicEnabled pg
  then [Page.SetVolume Page.music; Page.Play Page.music] else [].

(** The text the status line shows in each phase. *)
Definition status_of (g : TicTacToe) : string :=
  match phase g with
  | InProgress => Page.turn_message (currentPlayer g)
  | Won p => "🎉 Player " +:+ player_str p +:+ " wins! 🎉"
  | Draw => "🤝 It's a draw!"
  end.

(** The [k]-th cell element shows the [k]-th cell of the board: its
    index, text, [data-player] attribute and classes say what the board
    and [winningCells] say. *)
Definition cell_shows (g : TicTacToe) (k : nat) (c : Page.CellElement) : Prop :=
  Page.dataIndex c = Int (Z.of_nat k) ∧
  Some (Page.textContent c) = cell_str <$> board g !! k ∧
  (∀ p, Page.dataPlayer c = Some (player_str p) <-> board g !! k = Some (Mark p)) ∧
  (Page.dataPlayer c = None <-> board g !! k = Some Empty) ∧
  ("player-x"%string ∈ Page.classList c <-> board g !! k = Some (Mark X)) ∧
  ("player-o"%string ∈ Page.classList c <-> board g !! k = Some (Mark O)) ∧
  ("winning-cell"%string ∈ Page.classList c <-> k ∈ winningCells g).

Definition cells_show_board (pg : Page.t) : Prop :=
  length (Page.cells pg) = 9 ∧
  ∀ k c, Page.cells pg !! k = Some c -> cell_shows (Page.this pg) k c.

(** The score displays show the counters. *)
Definition scores_shown (pg : Page.t) : Prop :=
  Page.scoreXText pg = pretty (scoreX (scores (Page.this pg))) ∧
  Page.scoreOText pg = pretty (scoreO (scores (Page.this pg))) ∧
  Page.scoreDrawText pg = pretty (scoreDraw (scores (Page.this pg))).

(** A sound effect, as opposed to the background music. *)
Definition is_effect (s : Page.Sound) : bool :=
  match s with
  | Page.music => false
  | _ => true
  end.

(** The audio element a call is made on. *)
Definition call_target (c : Page.AudioCall) : Page.Sound :=
  match c with
  | Page.SetCurrentTime s | Page.SetVolume s | Page.Play s | Page.Pause s => s
  end.

(** Scenarios of the specification, run on the embedding. *)
Example scenario_row_win :
  let g := clicks [Int 0; Int 3; Int 1; Int 4; Int 2] initial in
  phase g = Won X ∧ winningCells g = [0; 1; 2] ∧ scores g = mkScores 1 0 0.
Proof. vm_compute. done. Qed.

Example scenario_draw :
  let g := clicks [Int 0; Int 1; Int 2; Int 4; Int 3; Int 5; Int 7; Int 6; Int 8]
             initial in
  phase g = Draw ∧ scores g = mkScores 0 0 1.
Proof. vm_compute. done. Qed.

(** ** Basic facts about the operations *)

Section board_facts.
Implicit Types (brd : list Cell) (p q : Player) (n : nat).

Lemma count_mark_replicate p n : count_mark p (replicate n Empty) = 0.
Proof.
  unfold count_mark. induction n as [|n IH]; simpl; [done|].
  rewrite filter_cons_False; [exact IH | discriminate].
Qed.

Lemma count_filled_replicate n : count_filled (replicate n Empty) = 0.
Proof.
  unfold count_filled. induction n as [|n IH]; simpl; [done|].
  rewrite filter_cons_False; [exact IH | intros H; by apply H].
Qed.

(** Marking an empty cell adds one mark of the mover and none of the
    other player. *)
Lemma count_mark_insert brd n p q :
  brd !! n = Some Empty ->
  count_mark p (<[n := Mark q]> brd)
  = count_mark p brd + (if decide (p = q) then 1 else 0).
Proof.
  unfold count_mark. revert n.
  induction brd as [|c brd IH]; intros [|n] Hn; simplify_eq/=.
  - rewrite (filter_cons_False _ Empty); [|discriminate].
    destruct (decide (p = q)) as [->|Hpq].
    + rewrite filter_cons_True; [simpl; lia | done].
    + rewrite filter_cons_False; [lia | congruence].
  - specialize (IH n Hn).
    destruct (decide (c = Mark p)) as [Hc|Hc].
    + rewrite !filter_cons_True by done. simpl. lia.
    + rewrite !filter_cons_False by done. done.
Qed.

Lemma count_filled_insert brd n q :
  brd !! n = Some Empty ->
  count_filled (<[n := Mark q]> brd) = S (count_filled brd).
Proof.
  unfold count_filled. revert n.
  induction brd as [|c brd IH]; intros [|n] Hn; simplify_eq/=.
  - by rewrite (filter_cons_False _ Empty) by (intros H; by apply H).
  - specialize (IH n Hn).
    destruct (decide (c ≠ Empty)) as [Hc|Hc].
    + rewrite !filter_cons_True by done. simpl. lia.
    + rewrite !filter_cons_False by done. done.
Qed.

Lemma count_filled_le brd : count_filled brd <= length brd.
Proof. apply length_filter. Qed.

(** [every((c) => c !== "")] holds exactly when no cell is empty. *)
Lemma board_full_count brd :
  board_full brd = true <-> count_filled brd = length brd.
Proof.
  unfold board_full, count_filled.
  induction brd as [|c brd IH]; simpl; [done|].
  pose proof (length_filter (fun c => c ≠ Empty) brd) as Hle.
  destruct (decide (c ≠ Empty)) as [Hc|Hc].
  - rewrite filter_cons_True by done. rewrite bool_decide_true by done.
    simpl. rewrite IH. lia.
  - rewrite filter_cons_False by done. rewrite bool_decide_false by done.
    simpl. split; [done | lia].
Qed.

Lemma board_full_Forall brd :
  board_full brd = true <-> Forall (fun c => c ≠ Empty) brd.
Proof.
  unfold board_full. rewrite forallb_forall, Forall_forall.
  split; intros H c Hc.
  - apply list_elem_of_In in Hc. apply H in Hc. by apply bool_decide_eq_true in Hc.
  - apply bool_decide_eq_true, H. by apply list_elem_of_In.
Qed.
End board_facts.

Section checkWin_facts.
Implicit Types (brd : list Cell) (pattern : list nat)
  (patterns : list (list nat)) (p : Player).

(** The loop stops at the first pattern that passes the test. *)
Lemma checkWin_loop_Some brd patterns pattern :
  checkWin_loop brd patterns = Some pattern <->
  ∃ before after,
    patterns = before ++ pattern :: after ∧
    pattern_matches brd pattern = true ∧
    Forall (fun q => pattern_matches brd q = false) before.
Proof.
  induction patterns as [|q patterns IH]; simpl.
  - split; [done|]. intros ([|??] & ? & ? & _); discriminate.
  - destruct (pattern_matches brd q) eqn:Hq.
    + split.
      * intros [= <-]. by exists [], patterns.
      * intros ([|q' before] & after & Heq & Hm & Hbefore); simplify_eq/=.
        -- done.
        -- apply Forall_cons in Hbefore as [Hq' _]. congruence.
    + rewrite IH. split.
      * intros (before & after & -> & Hm & Hbefore).
        exists (q :: before), after. split_and!; [done..|by constructor].
      * intros ([|q' before] & after & Heq & Hm & Hbefore); simplify_eq/=.
        -- congruence.
        -- apply Forall_cons in Hbefore as [_ Hbefore]. eauto.
Qed.

Lemma checkWin_loop_None brd patterns :
  checkWin_loop brd patterns = None <->
  Forall (fun q => pattern_matches brd q = false) patterns.
Proof.
  induction patterns as [|q patterns IH]; simpl.
  - split; [constructor | done].
  - rewrite Forall_cons, <- IH.
    destruct (pattern_matches brd q); [|tauto].
    split; [done | intros [? _]; done].
Qed.

(** On a triple, the test of the loop body says that the three cells
    carry the same player's mark. *)
Lemma pattern_matches_line brd a b c :
  pattern_matches brd [a; b; c] = true <-> ∃ p, line_of p brd [a; b; c].
Proof.
  unfold pattern_matches, line_of, strict_eq, truthy.
  rewrite !andb_true_iff, !bool_decide_eq_true.
  setoid_rewrite Forall_cons. setoid_rewrite Forall_cons.
  setoid_rewrite Forall_cons. split.
  - intros [[Ha Hb] Hc]. destruct (brd !! a) as [[|p]|] eqn:E; try done.
    exists p. by rewrite <- Hb, <- Hc.
  - intros (p & -> & -> & -> & _). done.
Qed.

Lemma winPatterns_triples pattern :
  pattern ∈ winPatterns -> ∃ a b c, pattern = [a; b; c].
Proof.
  unfold winPatterns. rewrite !elem_of_cons, elem_of_nil.
  intros H. repeat (destruct H as [->|H]; [by eauto|]). done.
Qed.

(** [checkWin] finds a pattern exactly when the board shows a
    completed line. *)
Lemma checkWin_loop_has_line brd :
  is_Some (checkWin_loop brd winPatterns) <-> has_line brd.
Proof.
  split.
  - intros [pattern H]. apply checkWin_loop_Some in H
      as (before & after & Heq & Hm & _).
    assert (pattern ∈ winPatterns) as Hin
      by (rewrite Heq; apply elem_of_app; right; left).
    destruct (winPatterns_triples _ Hin) as (a & b & c & ->).
    apply pattern_matches_line in Hm as [p Hp]. by exists [a; b; c], p.
  - intros (pattern & p & Hin & Hp).
    destruct (checkWin_loop brd winPatterns) eqn:E; [by eexists|].
    rewrite checkWin_loop_None, Forall_forall in E.
    specialize (E _ Hin).
    destruct (winPatterns_triples _ Hin) as (a & b & c & ->).
    assert (pattern_matches brd [a; b; c] = true)
      by (apply pattern_matches_line; eauto).
    congruence.
Qed.

Lemma checkWin_loop_no_line brd :
  checkWin_loop brd winPatterns = None <-> ¬ has_line brd.
Proof.
  rewrite <- checkWin_loop_has_line, <- eq_None_not_Some. done.
Qed.

Lemma checkWin_loop_nonempty brd pattern :
  checkWin_loop brd winPatterns = Some pattern -> pattern ≠ [].
Proof.
  intros H. apply checkWin_loop_Some in H as (before & after & Heq & _).
  assert (pattern ∈ winPatterns) as Hin
    by (rewrite Heq; apply elem_of_app; right; left).
  by destruct (winPatterns_triples _ Hin) as (a & b & c & ->).
Qed.
End checkWin_facts.

Section click_facts.
Implicit Types (g : TicTacToe) (index : Index) (n : nat).

(** A click that fails the guard changes nothing. *)
Lemma handleCellClick_invalid g index :
  move_is_valid g index = false -> handleCellClick index g = g.
Proof. unfold handleCellClick. by intros ->. Qed.

(** The guard holds only for an index of an existing, empty cell, with
    the game active. *)
Lemma move_is_valid_inv g index :
  move_is_valid g index = true ->
  ∃ n, index = Int (Z.of_nat n) ∧ board g !! n = Some Empty ∧
       gameIsActive g = true ∧
       ∀ v, board_set (board g) index v = <[n := v]> (board g).
Proof.
  unfold move_is_valid, strict_eq. rewrite andb_true_iff, bool_decide_eq_true.
  intros [Hget Hact]. destruct index as [z|]; simpl in *; [|done].
  destruct (0 <=? z)%Z eqn:Hz; [|done]. apply Z.leb_le in Hz.
  exists (Z.to_nat z). rewrite Z2Nat.id by done. done.
Qed.

(** The three outcomes of a click that passes the guard. *)
Lemma handleCellClick_valid g index :
  move_is_valid g index = true ->
  let brd' := marked g index in
  handleCellClick index g =
    match checkWin_loop brd' winPatterns with
    | Some pattern => handleWin (set_winningCells pattern (set_board brd' g))
    | None =>
        if board_full brd' then handleDraw (set_board brd' g)
        else set_currentPlayer (other (currentPlayer g)) (set_board brd' g)
    end.
Proof.
  intros Hv. unfold handleCellClick, checkWin. rewrite Hv. cbv zeta.
  cbn [board set_board].
  by destruct (checkWin_loop _ _).
Qed.

(** Once the game is inactive, clicks are inert. *)
Lemma clicks_inactive l g :
  gameIsActive g = false -> clicks l g = g.
Proof.
  intros Hg. induction l as [|index l IH]; [done|].
  unfold clicks in *. simpl. rewrite handleCellClick_invalid; [done|].
  unfold move_is_valid. rewrite Hg. apply andb_false_r.
Qed.
End click_facts.

Section phase_facts.
Implicit Types (g : TicTacToe).

Lemma phase_InProgress g : phase g = InProgress <-> gameIsActive g = true.
Proof.
  unfold phase. destruct (gameIsActive g); [done|].
  by destruct (winningCells g).
Qed.

Lemma phase_terminal g : phase g ≠ InProgress <-> gameIsActive g = false.
Proof. rewrite phase_InProgress. by destruct (gameIsActive g). Qed.

Lemma phase_handleWin g :
  winningCells g ≠ [] -> phase (handleWin g) = Won (currentPlayer g).
Proof. unfold phase. simpl. by destruct (winningCells g). Qed.

Lemma phase_handleDraw g :
  winningCells g = [] -> phase (handleDraw g) = Draw.
Proof. unfold phase. simpl. by intros ->. Qed.

Lemma score_of_incr_same p s : score_of p (score_incr p s) = S (score_of p s).
Proof. by destruct p. Qed.

Lemma score_of_incr_other p s :
  score_of (other p) (score_incr p s) = score_of (other p) s.
Proof. by destruct p. Qed.

Lemma scoreDraw_incr p s : scoreDraw (score_incr p s) = scoreDraw s.
Proof. by destruct p. Qed.

Lemma other_neq p : other p ≠ p.
Proof. by destruct p. Qed.
End phase_facts.

(** ** Reachable states *)

Section reachable_states.
Implicit Types (g : TicTacToe).

Lemma wellformed_initial : wellformed initial.
Proof. by split. Qed.

Lemma wellformed_resetGame g :
  length (board g) = 9 -> wellformed (resetGame g).
Proof. intros Hlen. split; [|done]. simpl. by rewrite length_replicate. Qed.

Lemma wellformed_handleCellClick g index :
  wellformed g -> wellformed (handleCellClick index g).
Proof.
  intros [Hlen Hwin]. destruct (move_is_valid g index) eqn:Hvalid;
    [|by rewrite handleCellClick_invalid].
  rewrite handleCellClick_valid by done. cbv zeta.
  destruct (move_is_valid_inv g index Hvalid) as (n & _ & _ & Hact & Hset).
  unfold marked. rewrite Hset.
  destruct (checkWin_loop _ _); [|destruct (board_full _)];
    (split; [simpl; by rewrite length_insert | simpl; auto; done]).
Qed.

Lemma wellformed_dispatch g e : wellformed g -> wellformed (dispatch e g).
Proof.
  intros Hwf. destruct e as [index| | |]; cbn [dispatch].
  - by apply wellformed_handleCellClick.
  - apply wellformed_resetGame, Hwf.
  - apply (wellformed_resetGame (set_scores (mkScores 0 0 0) g)), Hwf.
  - destruct (timeouts g) as [|[] rest]; [done|..];
      apply (wellformed_resetGame (set_timeouts rest g)), Hwf.
Qed.

(** Every state the page can be in has nine cells, and no winning cells
recorded while the game is in progress. *)
Lemma wellformed_run es g : wellformed g -> wellformed (run es g).
Proof.
  revert g. induction es as [|e es IH]; intros g Hwf; [done|].
  apply IH. by apply wellformed_dispatch.
Qed.

(** Each reset starts a round. *)
Lemma fresh_resetGame g : length (board g) = 9 -> fresh (resetGame g).
Proof. intros Hlen. unfold fresh. simpl. by rewrite Hlen. Qed.
End reachable_states.

(** ** Rejected clicks *)

(** C3.  A click is ignored, leaving every field of the object as it was
    (board, current player, activity flag and hence phase, scores, winning
    cells, pending timers), whenever the game is not in progress, or the
    clicked cell is already marked, or the index names none of the nine
    cells ([NaN] included).  The handler is a total function: on this path
    it only evaluates the guard, where a read outside the array yields
    [undefined] rather than an error. *)
Theorem rejected_click_changes_nothing (g : TicTacToe) (index : Index) :
  length (board g) = 9 ->
  phase g ≠ InProgress ∨ occupied g index ∨ ¬ in_range index ->
  handleCellClick index g = g.
Proof.
  intros Hlen Hcase. apply handleCellClick_invalid.
  destruct (move_is_valid g index) eqn:Hv; [exfalso|done].
  apply move_is_valid_inv in Hv as (n & -> & Hn & Hact & _).
  destruct Hcase as [Hph|[[p Hp]|Hrange]].
  - apply phase_terminal in Hph. congruence.
  - simpl in Hp. rewrite Nat2Z.id in Hp.
    destruct (0 <=? Z.of_nat n)%Z; congruence.
  - apply Hrange. exists (Z.of_nat n). split; [done|].
    apply lookup_lt_Some in Hn. lia.
Qed.

(** Rejected clicks of each kind: after a win, on a marked cell, and with
    an index that names no cell. *)
Lemma rejected_click_changes_nothing_witness :
  let won := clicks [Int 0; Int 3; Int 1; Int 4; Int 2] initial in
  let opened := clicks [Int 4] initial in
  handleCellClick (Int 5) won = won ∧
  handleCellClick (Int 4) opened = opened ∧
  handleCellClick (Int 9) initial = initial ∧
  handleCellClick (Int (-1)) initial = initial ∧
  handleCellClick NaN initial = initial.
Proof.
  cbv zeta. split_and!.
  - apply rejected_click_changes_nothing; [reflexivity|].
    left. vm_compute. discriminate.
  - apply rejected_click_changes_nothing; [reflexivity|].
    right; left. exists X. reflexivity.
  - apply rejected_click_changes_nothing; [reflexivity|].
    right; right. intros (z & [= <-] & Hz). lia.
  - apply rejected_click_changes_nothing; [reflexivity|].
    right; right. intros (z & [= <-] & Hz). lia.
  - apply rejected_click_changes_nothing; [reflexivity|].
    right; right. intros (z & Hz & _). discriminate.
Defined.

(** ** Resets *)

(** C7.  Whatever the object looked like before, [resetGame] leaves a
    board of the same length with every cell empty, X to move, the game in
    progress and no winning cells, and it does not touch the scores. *)
Theorem resetGame_restarts_round (g : TicTacToe) :
  let g' := resetGame g in
  board g' = replicate (length (board g)) Empty ∧
  Forall (fun c => c = Empty) (board g') ∧
  length (board g') = length (board g) ∧
  currentPlayer g' = X ∧
  phase g' = InProgress ∧
  winningCells g' = [] ∧
  scores g' = scores g.
Proof.
  simpl. split_and!; try done.
  - apply Forall_replicate. done.
  - apply length_replicate.
Qed.

(** C8.  [resetAll] ends in the state [resetGame] ends in, except that
    the three counters are zero. *)
Theorem resetAll_zeroes_scores (g : TicTacToe) :
  board (resetAll g) = board (resetGame g) ∧
  currentPlayer (resetAll g) = currentPlayer (resetGame g) ∧
  phase (resetAll g) = phase (resetGame g) ∧
  winningCells (resetAll g) = winningCells (resetGame g) ∧
  resetAll g = set_scores (mkScores 0 0 0) (resetGame g) ∧
  scoreX (scores (resetAll g)) = 0 ∧
  scoreO (scores (resetAll g)) = 0 ∧
  scoreDraw (scores (resetAll g)) = 0.
Proof. done. Qed.

(** ** Winning moves *)

Section accepted_click.
Variables (g : TicTacToe) (index : Index).
Hypothesis Hvalid : move_is_valid g index = true.

(** Whatever the outcome, an accepted click marks the clicked cell
and nothing else on the board. *)
Lemma handleCellClick_board :
  board (handleCellClick index g) = marked g index.
Proof using Hvalid.
  rewrite handleCellClick_valid by done. cbv zeta. fold (marked g index).
  destruct (checkWin_loop _ _); [done|].
  by destruct (board_full _).
Qed.

(** The state after an accepted click that leaves a completed line. *)
Lemma handleCellClick_win :
  has_line (marked g index) ->
  ∃ pattern,
    checkWin_loop (marked g index) winPatterns = Some pattern ∧
    handleCellClick index g =
      handleWin (set_winningCells pattern (set_board (marked g index) g)).
Proof using Hvalid.
  intros [pattern Hp]%checkWin_loop_has_line. exists pattern.
  split; [done|]. rewrite handleCellClick_valid by done. cbv zeta.
  fold (marked g index). by rewrite Hp.
Qed.

(** The state after an accepted click that leaves no completed line. *)
Lemma handleCellClick_no_win :
  ¬ has_line (marked g index) ->
  handleCellClick index g =
    if board_full (marked g index) then handleDraw (set_board (marked g index) g)
    else set_currentPlayer (other (currentPlayer g))
           (set_board (marked g index) g).
Proof using Hvalid.
  intros Hp%checkWin_loop_no_line.
  rewrite handleCellClick_valid by done. cbv zeta.
  fold (marked g index). by rewrite Hp.
Qed.
End accepted_click.

(** C1.  An accepted click after which the board shows a completed line
    puts the game in phase [Won] for the player who moved, adds exactly one
    to that player's counter and leaves the other two counters alone; from
    then on any run of cell clicks leaves the whole object as it is, so
    board, current player and phase can only change through [resetGame] or
    [resetAll]. *)
Theorem winning_move_ends_round (g : TicTacToe) (index : Index) :
  move_is_valid g index = true ->
  has_line (marked g index) ->
  let mover := currentPlayer g in
  let g' := handleCellClick index g in
  phase g' = Won mover ∧
  score_of mover (scores g') = S (score_of mover (scores g)) ∧
  score_of (other mover) (scores g') = score_of (other mover) (scores g) ∧
  scoreDraw (scores g') = scoreDraw (scores g) ∧
  ∀ l, clicks l g' = g'.
Proof.
  intros Hvalid Hline. cbv zeta.
  destruct (handleCellClick_win g index Hvalid Hline) as (pattern & Hp & ->).
  split_and!.
  - rewrite phase_handleWin; [done|]. simpl.
    by eapply checkWin_loop_nonempty.
  - simpl. apply score_of_incr_same.
  - simpl. apply score_of_incr_other.
  - simpl. apply scoreDraw_incr.
  - intros l. by apply clicks_inactive.
Qed.

(** X completes the top row with the fifth move of the round. *)
Lemma winning_move_ends_round_witness :
  let g := clicks [Int 0; Int 3; Int 1; Int 4] initial in
  let g' := handleCellClick (Int 2) g in
  phase g' = Won X ∧
  score_of X (scores g') = 1 ∧
  score_of O (scores g') = 0 ∧
  scoreDraw (scores g') = 0 ∧
  ∀ l, clicks l g' = g'.
Proof.
  cbv zeta.
  apply (winning_move_ends_round
           (clicks [Int 0; Int 3; Int 1; Int 4] initial) (Int 2)).
  - reflexivity.
  - exists [0; 1; 2], X. split.
    + left.
    + repeat constructor.
Defined.

(** C10.  A winning click does not toggle [currentPlayer]: in the [Won]
    phase the object still names the winner as current player.  The
    current player changes only on a click that passes the guard, leaves no
    completed line and leaves an empty cell, after which the game is still
    in progress. *)
Theorem currentPlayer_toggles_only_on_continue (g : TicTacToe) (index : Index) :
  let brd' := marked g index in
  let g' := handleCellClick index g in
  (move_is_valid g index = true ∧ has_line brd' ->
   currentPlayer g' = currentPlayer g ∧ phase g' = Won (currentPlayer g')) ∧
  (currentPlayer g' ≠ currentPlayer g ->
   move_is_valid g index = true ∧ ¬ has_line brd' ∧
   board_full brd' = false ∧ phase g' = InProgress ∧
   currentPlayer g' = other (currentPlayer g)).
Proof.
  cbv zeta. split.
  - intros [Hvalid Hline].
    destruct (handleCellClick_win g index Hvalid Hline) as (pattern & Hp & ->).
    split; [done|]. rewrite phase_handleWin; [done|]. simpl.
    by eapply checkWin_loop_nonempty.
  - intros Hneq.
    destruct (move_is_valid g index) eqn:Hvalid;
      [|by rewrite handleCellClick_invalid in Hneq].
    destruct (checkWin_loop
                (marked g index)
                winPatterns) as [pattern|] eqn:Hloop.
    + destruct (handleCellClick_win g index Hvalid) as (pattern' & _ & Heq).
      { apply checkWin_loop_has_line. by eexists. }
      by rewrite Heq in Hneq.
    + apply checkWin_loop_no_line in Hloop.
      pose proof (handleCellClick_no_win g index Hvalid Hloop) as Heq.
      destruct (board_full _) eqn:Hfull; [by rewrite Heq in Hneq|].
      rewrite Heq. split_and!; try done.
      apply phase_InProgress. simpl.
      by apply move_is_valid_inv in Hvalid as (_ & _ & _ & ? & _).
Qed.

(** After X, O, X, O on cells 0, 3, 1, 4: cell 2 wins for X and keeps X
    current, cell 8 continues the game and hands the turn to O. *)
Lemma currentPlayer_toggles_only_on_continue_witness :
  let g := clicks [Int 0; Int 3; Int 1; Int 4] initial in
  (currentPlayer (handleCellClick (Int 2) g) = currentPlayer g ∧
   phase (handleCellClick (Int 2) g) = Won X) ∧
  (phase (handleCellClick (Int 8) g) = InProgress ∧
   currentPlayer (handleCellClick (Int 8) g) = O).
Proof.
  cbv zeta. split.
  - apply (currentPlayer_toggles_only_on_continue
             (clicks [Int 0; Int 3; Int 1; Int 4] initial) (Int 2)).
    split; [reflexivity|].
    exists [0; 1; 2], X. split; [left | repeat constructor].
  - apply (currentPlayer_toggles_only_on_continue
             (clicks [Int 0; Int 3; Int 1; Int 4] initial) (Int 8)).
    vm_compute. discriminate.
Defined.

(** ** Which line is recorded *)

(** The table lists the three rows, then the three columns, then the two
    diagonals. *)
Lemma winPatterns_order :
  winPatterns = map row [0; 1; 2] ++ map column [0; 1; 2] ++ diagonals.
Proof. reflexivity. Qed.

(** A last move that completes the top row and the left column at once:
    the row, which comes first in the table, is the one recorded. *)
Example two_lines_at_once :
  let g := clicks [Int 1; Int 4; Int 2; Int 5; Int 3; Int 7; Int 6; Int 8; Int 0]
             initial in
  line_of X (board g) [0; 1; 2] ∧ line_of X (board g) [0; 3; 6] ∧
  winningCells g = [0; 1; 2].
Proof. cbv zeta. split_and!; [repeat constructor..|reflexivity]. Qed.

(** C5.  When an accepted click leaves a completed line, [winningCells]
    is an entry of the table (rows, columns, diagonals, in that order) whose
    three cells carry one player's mark, and no entry before it in the table
    has its cells non-empty and equal: the first match in table order is the
    one recorded, also when later entries match as well. *)
Theorem winningCells_is_first_match (g : TicTacToe) (index : Index) :
  move_is_valid g index = true ->
  has_line (marked g index) ->
  let brd' := marked g index in
  let g' := handleCellClick index g in
  ∃ before after,
    map row [0; 1; 2] ++ map column [0; 1; 2] ++ diagonals
      = before ++ winningCells g' :: after ∧
    (∃ p, line_of p brd' (winningCells g')) ∧
    Forall (fun pattern => ¬ ∃ p, line_of p brd' pattern) before.
Proof.
  intros Hvalid Hline. cbv zeta.
  destruct (handleCellClick_win g index Hvalid Hline) as (pattern & Hp & ->).
  apply checkWin_loop_Some in Hp as (before & after & Heq & Hm & Hbefore).
  exists before, after. rewrite <- winPatterns_order. simpl.
  assert (∀ q, q ∈ winPatterns ->
    pattern_matches (marked g index) q = true
    <-> ∃ p, line_of p (marked g index) q)
    as Hspec.
  { intros q (a & b & c & ->)%winPatterns_triples. apply pattern_matches_line. }
  split_and!.
  - done.
  - apply Hspec; [|done]. rewrite Heq. apply elem_of_app. right. left.
  - apply Forall_forall. intros q Hq.
    rewrite Forall_forall in Hbefore. specialize (Hbefore q Hq).
    rewrite <- Hspec, Hbefore; [done|].
    rewrite Heq. apply elem_of_app. by left.
Qed.

(** The ninth move completes the top row and the left column; the row is
    recorded. *)
Lemma winningCells_is_first_match_witness :
  let g := clicks [Int 1; Int 4; Int 2; Int 5; Int 3; Int 7; Int 6; Int 8] initial in
  let brd' := marked g (Int 0) in
  let g' := handleCellClick (Int 0) g in
  ∃ before after,
    map row [0; 1; 2] ++ map column [0; 1; 2] ++ diagonals
      = before ++ winningCells g' :: after ∧
    (∃ p, line_of p brd' (winningCells g')) ∧
    Forall (fun pattern => ¬ ∃ p, line_of p brd' pattern) before.
Proof.
  cbv zeta.
  apply (winningCells_is_first_match
           (clicks [Int 1; Int 4; Int 2; Int 5; Int 3; Int 7; Int 6; Int 8] initial)
           (Int 0)).
  - reflexivity.
  - exists [0; 3; 6], X. split.
    + right; right; right; left.
    + repeat constructor.
Defined.

(** ** Leaving a terminal phase *)

(** C9, amended.  The object does return to a game in progress on its
    own: [handleWin] and [handleDraw] register a callback that calls
    [resetGame] two seconds after the round has ended.  What holds is this.
    While the game is won or drawn, a cell click leaves the object
    untouched, and a step that changes the phase is never a cell click: it
    is a click on restart or reset-all, or that callback firing, and in each
    case the new state is what a call of [resetGame] returns, with the game
    in progress again. *)
Theorem terminal_phase_left_only_by_reset (g : TicTacToe) (e : Event) :
  phase g ≠ InProgress ->
  (∀ index, e = CellClick index -> dispatch e g = g) ∧
  (phase (dispatch e g) ≠ phase g ->
   (e = RestartClick ∨ e = ResetAllClick ∨ e = TimerFires) ∧
   (∃ g0, dispatch e g = resetGame g0) ∧
   phase (dispatch e g) = InProgress).
Proof.
  intros Hterm. apply phase_terminal in Hterm.
  assert (∀ index, handleCellClick index g = g) as Hclick.
  { intros index. apply handleCellClick_invalid.
    unfold move_is_valid. rewrite Hterm. apply andb_false_r. }
  split.
  - intros index ->. apply Hclick.
  - destruct e as [index| | |]; cbn [dispatch].
    + rewrite Hclick. done.
    + intros _. split_and!; [by left | by exists g | done].
    + intros _. split_and!; [by right; left | | done].
      by exists (set_scores (mkScores 0 0 0) g).
    + destruct (timeouts g) as [|t rest]; [done|].
      intros _. split_and!; [by right; right | | by destruct t].
      exists (set_timeouts rest g). by destruct t.
Qed.

(** After a win a click on a free cell is inert, and the pending callback
    restarts the round. *)
Lemma terminal_phase_left_only_by_reset_witness :
  let won := clicks [Int 0; Int 3; Int 1; Int 4; Int 2] initial in
  phase won ≠ InProgress ∧
  dispatch (CellClick (Int 8)) won = won ∧
  phase (dispatch TimerFires won) = InProgress.
Proof.
  cbv zeta.
  assert (phase (clicks [Int 0; Int 3; Int 1; Int 4; Int 2] initial) ≠ InProgress)
    as Hterm by (vm_compute; discriminate).
  split_and!.
  - exact Hterm.
  - destruct (terminal_phase_left_only_by_reset _ (CellClick (Int 8)) Hterm)
      as [Hclick _].
    exact (Hclick (Int 8) eq_refl).
  - destruct (terminal_phase_left_only_by_reset _ TimerFires Hterm)
      as [_ Hleave].
    apply Hleave. vm_compute. discriminate.
Defined.

(** C9 as stated fails.  X wins with the fifth click of the round; no
    restart and no reset-all follows, only the callback that [handleWin]
    registered, and when it fires the game is in progress again.  So it is
    not the case that a terminal phase is left by restart and reset-all
    only. *)
Lemma terminal_phase_left_by_own_callback :
  let won := run (map CellClick [Int 0; Int 3; Int 1; Int 4; Int 2]) initial in
  (phase won = Won X ∧
   timeouts won = [AfterWin] ∧
   phase (dispatch TimerFires won) = InProgress) ∧
  ¬ (∀ es e,
       phase (run es initial) ≠ InProgress ->
       phase (dispatch e (run es initial)) = InProgress ->
       e = RestartClick ∨ e = ResetAllClick).
Proof.
  cbv zeta. split; [by vm_compute|]. intros Hclaim.
  destruct (Hclaim (map CellClick [Int 0; Int 3; Int 1; Int 4; Int 2])
              TimerFires) as [Habs|Habs];
    [by vm_compute|by vm_compute|discriminate Habs..].
Qed.

(** ** The balance of marks *)

Section balance.
Implicit Types (g : TicTacToe).

Lemma balanced_initial : balanced initial.
Proof. split; [reflexivity | by left]. Qed.

Lemma balanced_resetGame g : balanced (resetGame g).
Proof.
  unfold balanced. simpl. rewrite !count_mark_replicate. by split; [|left].
Qed.

Lemma balanced_handleCellClick g index :
  balanced g -> balanced (handleCellClick index g).
Proof.
  intros Hbal. destruct (move_is_valid g index) eqn:Hvalid;
    [|by rewrite handleCellClick_invalid].
  pose proof (handleCellClick_board g index Hvalid) as Hboard.
  destruct (move_is_valid_inv g index Hvalid) as (n & -> & Hn & Hact & Hset).
  unfold marked in Hboard. rewrite Hset in Hboard.
  assert (count_mark X (board (handleCellClick (Int (Z.of_nat n)) g))
          = count_mark O (board (handleCellClick (Int (Z.of_nat n)) g))
            + lead (other (currentPlayer g))) as Hcount.
  { rewrite Hboard, !count_mark_insert by done.
    destruct Hbal as [Hlead _]. specialize (Hlead Hact).
    destruct (currentPlayer g); simpl in *; lia. }
  split.
  - intros Hact'. rewrite Hcount. f_equal. f_equal.
    rewrite handleCellClick_valid in Hact' |- * by done. cbv zeta in *.
    destruct (checkWin_loop _ _); [done|].
    by destruct (board_full _).
  - rewrite Hcount. destruct (currentPlayer g); simpl; [right|left]; lia.
Qed.

Lemma balanced_dispatch g e : balanced g -> balanced (dispatch e g).
Proof.
  intros Hbal. destruct e as [index| | |]; simpl.
  - by apply balanced_handleCellClick.
  - apply balanced_resetGame.
  - apply (balanced_resetGame (set_scores (mkScores 0 0 0) g)).
  - destruct (timeouts g) as [|[] rest]; [done|..];
      apply (balanced_resetGame (set_timeouts rest g)).
Qed.

Lemma balanced_run es g : balanced g -> balanced (run es g).
Proof.
  revert g. induction es as [|e es IH]; intros g Hbal; [done|].
  apply IH. by apply balanced_dispatch.
Qed.
End balance.

(** C4.  After any sequence of cell clicks, restarts, full resets and
    timer callbacks applied to the freshly constructed object, the board
    carries as many X marks as O marks, or exactly one more. *)
Theorem marks_stay_balanced (es : list Event) :
  let g := run es initial in
  count_mark X (board g) = count_mark O (board g) ∨
  count_mark X (board g) = S (count_mark O (board g)).
Proof.
  cbv zeta. apply (balanced_run es initial balanced_initial).
Qed.

(** ** Runs of moves *)

Section runs.
Implicit Types (g : TicTacToe) (l : list Index) (index : Index).

Lemma clicks_cons index l g :
  clicks (index :: l) g = clicks l (handleCellClick index g).
Proof. reflexivity. Qed.

(** A run of accepted moves none of which completes a line: the board
fills one cell per move, and the game stays in progress with the scores
untouched until the move that fills the last cell, which ends the game
and counts one draw. *)
Lemma run_without_line l :
  ∀ g,
    gameIsActive g = true ->
    winningCells g = [] ->
    count_filled (board g) < length (board g) ->
    valid_moves_without_line l g ->
    length (board (clicks l g)) = length (board g) ∧
    count_filled (board (clicks l g)) = count_filled (board g) + length l ∧
    winningCells (clicks l g) = [] ∧
    if board_full (board (clicks l g))
    then gameIsActive (clicks l g) = false ∧
         scores (clicks l g) =
           mkScores (scoreX (scores g)) (scoreO (scores g))
                    (S (scoreDraw (scores g)))
    else gameIsActive (clicks l g) = true ∧ scores (clicks l g) = scores g.
Proof.
  induction l as [|index l IH]; intros g Hact Hwin Hroom Hrun.
  - unfold clicks. simpl. split_and!; [done|lia|done|].
    destruct (board_full (board g)) eqn:Hfull; [|done].
    apply board_full_count in Hfull. lia.
  - destruct Hrun as (Hvalid & Hnoline & Hrun).
    rewrite clicks_cons.
    pose proof (handleCellClick_board g index Hvalid) as Hboard.
    rewrite Hboard in Hnoline.
    pose proof (handleCellClick_no_win g index Hvalid Hnoline) as Heq.
    destruct (move_is_valid_inv g index Hvalid) as (n & -> & Hn & _ & Hset).
    unfold marked in Hboard. rewrite Hset in Hboard.
    assert (length (board (handleCellClick (Int (Z.of_nat n)) g))
            = length (board g)) as Hlen
      by (rewrite Hboard; apply length_insert).
    assert (count_filled (board (handleCellClick (Int (Z.of_nat n)) g))
            = S (count_filled (board g))) as Hcount
      by (rewrite Hboard; by apply count_filled_insert).
    destruct (board_full (marked g (Int (Z.of_nat n)))) eqn:Hfull.
    + (* the move filled the board: the run ends here *)
      destruct l as [|index' l].
      * unfold clicks. simpl foldl. rewrite Hlen, Hcount.
        split_and!; [done | simpl; lia | rewrite Heq; exact Hwin |].
        rewrite Hboard. unfold marked in Hfull. rewrite Hset in Hfull.
        rewrite Hfull. by rewrite Heq.
      * destruct Hrun as (Hvalid' & _).
        apply move_is_valid_inv in Hvalid' as (_ & _ & _ & Hact' & _).
        by rewrite Heq in Hact'.
    + (* an empty cell is left: the other player is to move *)
      destruct (IH (handleCellClick (Int (Z.of_nat n)) g))
        as (Hlen' & Hcount' & Hwin' & Hend); try done.
      * by rewrite Heq.
      * by rewrite Heq.
      * rewrite Hlen, Hcount.
        pose proof (count_filled_le (board (handleCellClick (Int (Z.of_nat n)) g)))
          as Hle.
        rewrite Hlen, Hcount in Hle.
        destruct (decide (S (count_filled (board g)) = length (board g)))
          as [Hfull'|]; [|lia].
        rewrite <- Hlen, <- Hcount in Hfull'.
        apply board_full_count in Hfull'.
        rewrite Hboard in Hfull'. unfold marked in Hfull.
        rewrite Hset in Hfull. congruence.
      * rewrite Hlen' , Hcount', Hlen, Hcount, Hwin'.
        split_and!; [done | simpl; lia | done |].
        assert (scores (handleCellClick (Int (Z.of_nat n)) g) = scores g)
          as Hscores by (by rewrite Heq).
        rewrite Hscores in Hend. exact Hend.
Qed.

Lemma movers_inactive l g : gameIsActive g = false -> movers l g = [].
Proof.
  intros Hg. induction l as [|index l IH]; [done|]. simpl.
  assert (move_is_valid g index = false) as Hv
    by (unfold move_is_valid; rewrite Hg; apply andb_false_r).
  rewrite Hv, handleCellClick_invalid by done. exact IH.
Qed.

(** An accepted move that does not end the game hands the turn over. *)
Lemma handleCellClick_continue g index :
  move_is_valid g index = true ->
  gameIsActive (handleCellClick index g) = true ->
  currentPlayer (handleCellClick index g) = other (currentPlayer g).
Proof.
  intros Hvalid. rewrite handleCellClick_valid by done. cbv zeta.
  destruct (checkWin_loop _ _); [done|].
  by destruct (board_full _).
Qed.

(** An accepted move that ends the game leaves it inactive; otherwise
the game goes on. *)
Lemma handleCellClick_active_or_not g index :
  gameIsActive (handleCellClick index g) = false ∨
  gameIsActive (handleCellClick index g) = true.
Proof. destruct (gameIsActive _); auto. Qed.

Lemma even_turn n p :
  (if Nat.even (S n) then p else other p)
  = (if Nat.even n then other p else other (other p)).
Proof.
  rewrite Nat.even_succ, <- Nat.negb_even.
  destruct (Nat.even n), p; reflexivity.
Qed.

Lemma movers_take_turns l :
  ∀ g,
    movers l g = alternating (length (movers l g)) (currentPlayer g) ∧
    (gameIsActive (clicks l g) = true ->
     currentPlayer (clicks l g)
     = if Nat.even (length (movers l g)) then currentPlayer g
       else other (currentPlayer g)).
Proof.
  induction l as [|index l IH]; intros g; [done|].
  rewrite clicks_cons. cbn [movers].
  destruct (move_is_valid g index) eqn:Hvalid.
  - destruct (handleCellClick_active_or_not g index) as [Hend|Hgo].
    + rewrite (movers_inactive l _ Hend), (clicks_inactive l _ Hend).
      split; [done | congruence].
    + destruct (IH (handleCellClick index g)) as [Hmovers Hturn].
      rewrite (handleCellClick_continue g index Hvalid Hgo) in Hmovers, Hturn.
      cbn [app length alternating]. split.
      * by rewrite <- Hmovers.
      * intros Hact. rewrite even_turn. by apply Hturn.
  - rewrite handleCellClick_invalid by done. apply IH.
Qed.
End runs.

(** C2.  Start a round and make only accepted moves, none of which
    completes a line.  Then the game is drawn exactly when no cell is empty,
    which happens exactly at the ninth move; at that point the draw counter
    is one higher than at the start of the round and the players' counters
    are as they were, and before that point the game is in progress with all
    three counters untouched. *)
Theorem draw_exactly_when_board_fills (g : TicTacToe) (l : list Index) :
  fresh g ->
  valid_moves_without_line l g ->
  let g' := clicks l g in
  length (board g') = 9 ∧
  (phase g' = Draw <-> Forall (fun c => c ≠ Empty) (board g')) ∧
  (Forall (fun c => c ≠ Empty) (board g') <-> length l = 9) ∧
  (phase g' = Draw ->
   scoreDraw (scores g') = S (scoreDraw (scores g)) ∧
   scoreX (scores g') = scoreX (scores g) ∧
   scoreO (scores g') = scoreO (scores g)) ∧
  (phase g' ≠ Draw -> phase g' = InProgress ∧ scores g' = scores g).
Proof.
  intros (Hboard & _ & Hact & Hwin) Hrun. cbv zeta.
  destruct (run_without_line l g) as (Hlen & Hcount & Hwin' & Hend); try done.
  { rewrite Hboard, count_filled_replicate, length_replicate. lia. }
  rewrite Hboard, count_filled_replicate, length_replicate in *.
  rewrite <- board_full_Forall.
  assert (board_full (board (clicks l g)) = true <-> length l = 9) as Hnine.
  { rewrite board_full_count. lia. }
  unfold phase. rewrite Hwin'.
  destruct (board_full (board (clicks l g))) eqn:Hfull;
    destruct Hend as [-> ->]; simpl; split_and!; done.
Qed.

(** The drawn game X O X / X O O / O X X, played in the order 0, 1, 2, 4,
    3, 5, 7, 6, 8. *)
Lemma draw_exactly_when_board_fills_witness :
  let l := [Int 0; Int 1; Int 2; Int 4; Int 3; Int 5; Int 7; Int 6; Int 8] in
  let g' := clicks l initial in
  length (board g') = 9 ∧
  (phase g' = Draw <-> Forall (fun c => c ≠ Empty) (board g')) ∧
  (Forall (fun c => c ≠ Empty) (board g') <-> length l = 9) ∧
  (phase g' = Draw ->
   scoreDraw (scores g') = S (scoreDraw (scores initial)) ∧
   scoreX (scores g') = scoreX (scores initial) ∧
   scoreO (scores g') = scoreO (scores initial)) ∧
  (phase g' ≠ Draw -> phase g' = InProgress ∧ scores g' = scores initial).
Proof.
  cbv zeta.
  apply (draw_exactly_when_board_fills initial
           [Int 0; Int 1; Int 2; Int 4; Int 3; Int 5; Int 7; Int 6; Int 8]).
  - repeat split.
  - repeat (split; [reflexivity|]; split;
            [apply checkWin_loop_no_line; reflexivity|]).
    exact I.
Defined.

(** C6.  In a round started from the empty board with X to move, the
    players making the accepted moves of any run of clicks are X, O, X, O,
    ... in strict alternation; as long as the game has not ended, the
    current player is X after an even number of accepted moves and O after
    an odd number; and every further accepted move that does not end the
    game hands the turn to the other player. *)
Theorem movers_alternate (g : TicTacToe) (l : list Index) :
  fresh g ->
  let g' := clicks l g in
  let n := length (movers l g) in
  movers l g = alternating n X ∧
  (gameIsActive g' = true ->
   currentPlayer g' = if Nat.even n then X else O) ∧
  (∀ index,
     move_is_valid g' index = true ->
     gameIsActive (handleCellClick index g') = true ->
     currentPlayer (handleCellClick index g') = other (currentPlayer g')).
Proof.
  intros (_ & Hturn & _ & _). cbv zeta.
  destruct (movers_take_turns l g) as [Hmovers Hcurrent].
  rewrite Hturn in Hmovers, Hcurrent. split_and!.
  - exact Hmovers.
  - exact Hcurrent.
  - intros index. apply handleCellClick_continue.
Qed.

(** A run with rejected clicks in between (a marked cell, index 9, NaN):
    four moves are accepted, made by X, O, X, O, and X is to move. *)
Lemma movers_alternate_witness :
  let l := [Int 4; Int 4; Int 0; Int 9; Int 8; NaN; Int 2] in
  fresh initial ∧
  movers l initial = [X; O; X; O] ∧
  currentPlayer (clicks l initial) = X.
Proof.
  cbv zeta.
  destruct (movers_alternate initial
              [Int 4; Int 4; Int 0; Int 9; Int 8; NaN; Int 2])
    as (Hmovers & Hcurrent & _).
  - repeat split.
  - split_and!.
    + repeat split.
    + exact Hmovers.
    + apply Hcurrent. reflexivity.
Defined.

(** * Further properties of the engine *)

(** ** Marks and moves *)

Section marks.
Implicit Types (g : TicTacToe) (l : list Index) (index : Index) (k : nat).

Lemma clicks_as_run l g : clicks l g = run (map CellClick l) g.
Proof. revert g. induction l as [|index l IH]; intros g; [done|]. apply IH. Qed.

Lemma handleCellClick_keeps_mark g index k p :
  board g !! k = Some (Mark p) ->
  board (handleCellClick index g) !! k = Some (Mark p).
Proof.
  intros Hk. destruct (move_is_valid g index) eqn:Hvalid;
    [|by rewrite handleCellClick_invalid].
  rewrite handleCellClick_board by done. unfold marked.
  destruct (move_is_valid_inv g index Hvalid) as (n & _ & Hn & _ & ->).
  rewrite list_lookup_insert_ne; [done|]. intros ->. congruence.
Qed.

Lemma handleCellClick_length g index :
  length (board (handleCellClick index g)) = length (board g).
Proof.
  destruct (move_is_valid g index) eqn:Hvalid;
    [|by rewrite handleCellClick_invalid].
  rewrite handleCellClick_board by done. unfold marked.
  destruct (move_is_valid_inv g index Hvalid) as (n & _ & _ & _ & ->).
  apply length_insert.
Qed.

Lemma clicks_keep_mark l g k p :
  board g !! k = Some (Mark p) -> board (clicks l g) !! k = Some (Mark p).
Proof.
  revert g. induction l as [|index l IH]; intros g Hk; [done|].
  rewrite clicks_cons. by apply IH, handleCellClick_keeps_mark.
Qed.

Lemma clicks_length l g : length (board (clicks l g)) = length (board g).
Proof.
  revert g. induction l as [|index l IH]; intros g; [done|].
  by rewrite clicks_cons, IH, handleCellClick_length.
Qed.

Lemma clicks_count_filled l g :
  count_filled (board (clicks l g))
  = count_filled (board g) + length (movers l g).
Proof.
  revert g. induction l as [|index l IH]; intros g.
  - unfold clicks. simpl. lia.
  - rewrite clicks_cons, IH. cbn [movers].
    destruct (move_is_valid g index) eqn:Hvalid.
    + rewrite handleCellClick_board by done. unfold marked.
      destruct (move_is_valid_inv g index Hvalid) as (n & _ & Hn & _ & ->).
      rewrite count_filled_insert by done. simpl. lia.
    + by rewrite handleCellClick_invalid.
Qed.
End marks.

(** X1.  Cell clicks never overwrite or erase a mark: a cell that
    carries a player's mark still carries it after any run of clicks. *)
Theorem clicks_never_overwrite_a_mark
  (g : TicTacToe) (l : list Index) (k : nat) (p : Player) :
  board g !! k = Some (Mark p) ->
  board (clicks l g) !! k = Some (Mark p).
Proof. apply clicks_keep_mark. Qed.

(** O clicks on the centre, already marked by X, and elsewhere: the
    centre stays X. *)
Lemma clicks_never_overwrite_a_mark_witness :
  board (clicks [Int 4; Int 0; Int 4] (clicks [Int 4] initial)) !! 4
  = Some (Mark X).
Proof.
  apply (clicks_never_overwrite_a_mark (clicks [Int 4] initial)).
  reflexivity.
Defined.

(** X2.  Every accepted move fills exactly one cell and rejected clicks
    fill none: after a run of clicks the number of non-empty cells has
    grown by the number of accepted moves, the board has kept its length,
    and so no more moves are accepted than there were empty cells. *)
Theorem accepted_moves_fill_one_cell_each (g : TicTacToe) (l : list Index) :
  count_filled (board (clicks l g))
  = count_filled (board g) + length (movers l g) ∧
  length (board (clicks l g)) = length (board g) ∧
  length (movers l g) <= length (board g) - count_filled (board g).
Proof.
  pose proof (clicks_count_filled l g) as Hcount.
  pose proof (clicks_length l g) as Hlen.
  pose proof (count_filled_le (board (clicks l g))) as Hle.
  split_and!; [done | done | lia].
Qed.

(** ** The phase agrees with the board *)

Section consistency.
Implicit Types (g : TicTacToe) (brd : list Cell) (pattern : list nat)
  (p q : Player) (n : nat).

Lemma no_line_replicate n : ¬ has_line (replicate n Empty).
Proof.
  intros (pattern & p & Hin & Hline).
  destruct (winPatterns_triples _ Hin) as (a & b & c & ->).
  apply Forall_cons in Hline as [Ha _].
  apply lookup_replicate in Ha as [? _]. done.
Qed.

(** On a board without a line, a line that appears when an empty cell
is marked belongs to the player who marked it. *)
Lemma new_line_is_movers brd n q pattern p :
  ¬ has_line brd ->
  pattern ∈ winPatterns ->
  brd !! n = Some Empty ->
  line_of p (<[n := Mark q]> brd) pattern ->
  p = q.
Proof.
  intros Hnone Hin Hn Hline. unfold line_of in Hline.
  rewrite Forall_forall in Hline.
  destruct (decide (n ∈ pattern)) as [Hmem|Hmem].
  - specialize (Hline n Hmem).
    rewrite list_lookup_insert_eq in Hline by (by eapply lookup_lt_Some).
    congruence.
  - exfalso. apply Hnone. exists pattern, p. split; [done|].
    apply Forall_forall. intros k Hk. specialize (Hline k Hk).
    rewrite list_lookup_insert_ne in Hline; [done|]. by intros ->.
Qed.

Lemma consistent_resetGame g : length (board g) = 9 -> consistent (resetGame g).
Proof.
  intros Hlen. unfold consistent. simpl. rewrite Hlen.
  split; [apply no_line_replicate | reflexivity].
Qed.

Lemma consistent_handleCellClick g index :
  wellformed g -> consistent g -> consistent (handleCellClick index g).
Proof.
  intros [_ Hwin] Hcons. destruct (move_is_valid g index) eqn:Hvalid;
    [|by rewrite handleCellClick_invalid].
  destruct (move_is_valid_inv g index Hvalid) as (n & Hindex & Hn & Hact & Hset).
  unfold consistent in Hcons.
  rewrite (proj2 (phase_InProgress g) Hact) in Hcons. destruct Hcons as [Hnone _].
  specialize (Hwin Hact).
  assert (marked g index = <[n := Mark (currentPlayer g)]> (board g)) as Hmarked
    by apply Hset.
  destruct (checkWin_loop (marked g index) winPatterns) as [pattern|] eqn:Hloop.
  - destruct (handleCellClick_win g index Hvalid) as (pattern' & Hloop' & ->).
    { apply checkWin_loop_has_line. by eexists. }
    assert (pattern' = pattern) as -> by congruence.
    unfold consistent. rewrite phase_handleWin
      by (simpl; by eapply checkWin_loop_nonempty).
    simpl. rewrite Hmarked in *.
    apply checkWin_loop_Some in Hloop as (before & after & Heq & Hm & _).
    assert (pattern ∈ winPatterns) as Hin
      by (rewrite Heq; apply elem_of_app; right; left).
    split_and!; [done| |].
    + destruct (winPatterns_triples _ Hin) as (a & b & c & ->).
      apply pattern_matches_line in Hm as [p Hp].
      by pose proof (new_line_is_movers _ _ _ _ _ Hnone Hin Hn Hp) as ->.
    + intros pattern' q Hin' Hq.
      by apply (new_line_is_movers _ _ _ _ _ Hnone Hin' Hn Hq).
  - apply checkWin_loop_no_line in Hloop.
    rewrite (handleCellClick_no_win g index Hvalid Hloop).
    unfold consistent. destruct (board_full (marked g index)) eqn:Hfull.
    + rewrite phase_handleDraw by done. done.
    + unfold phase. simpl. rewrite Hact. done.
Qed.

Lemma consistent_dispatch g e :
  wellformed g -> consistent g -> consistent (dispatch e g).
Proof.
  intros Hwf Hcons. destruct e as [index| | |]; cbn [dispatch].
  - by apply consistent_handleCellClick.
  - apply consistent_resetGame, Hwf.
  - apply (consistent_resetGame (set_scores (mkScores 0 0 0) g)), Hwf.
  - destruct (timeouts g) as [|[] rest]; [done|..];
      apply (consistent_resetGame (set_timeouts rest g)), Hwf.
Qed.

Lemma consistent_run es g :
  wellformed g -> consistent g -> consistent (run es g).
Proof.
  revert g. induction es as [|e es IH]; intros g Hwf Hcons; [done|].
  apply IH; [by apply wellformed_dispatch | by apply consistent_dispatch].
Qed.

Lemma consistent_initial : consistent initial.
Proof. split; [apply (no_line_replicate 9) | reflexivity]. Qed.

(** A board that is not full has an empty cell, and clicking it is a
valid move while the game is active. *)
Lemma open_board_has_move g :
  gameIsActive g = true -> board_full (board g) = false ->
  ∃ k, board g !! k = Some Empty ∧ move_is_valid g (Int (Z.of_nat k)) = true.
Proof.
  intros Hact Hfull.
  assert (¬ Forall (fun c => c ≠ Empty) (board g)) as Hex
    by (rewrite <- board_full_Forall; congruence).
  apply not_Forall_Exists in Hex; [|apply _].
  apply Exists_exists in Hex as (c & Hc & Hempty).
  apply list_elem_of_lookup in Hc as [k Hk].
  assert (c = Empty) as -> by (destruct c; [done|]; by destruct Hempty).
  exists k. split; [done|].
  unfold move_is_valid, strict_eq. simpl.
  rewrite (proj2 (Z.leb_le 0 (Z.of_nat k))) by lia.
  rewrite Nat2Z.id, Hk, Hact. by rewrite bool_decide_true.
Qed.
End consistency.

(** X3.  In every state the page can reach, a game in progress shows
    no completed line and still has a move: some cell is empty and a click
    on it passes the guard.  The game is never stuck with [gameIsActive]
    set and nothing left to click. *)
Theorem game_in_progress_has_a_move (es : list Event) :
  gameIsActive (run es initial) = true ->
  ¬ has_line (board (run es initial)) ∧
  ∃ k, board (run es initial) !! k = Some Empty ∧
       move_is_valid (run es initial) (Int (Z.of_nat k)) = true.
Proof.
  intros Hact.
  pose proof (consistent_run es initial wellformed_initial consistent_initial)
    as Hcons.
  unfold consistent in Hcons.
  rewrite (proj2 (phase_InProgress _) Hact) in Hcons.
  destruct Hcons as [Hnone Hfull]. split; [done|].
  by apply open_board_has_move.
Qed.

(** After X in the centre and O in a corner the game goes on. *)
Lemma game_in_progress_has_a_move_witness :
  let g := run [CellClick (Int 4); CellClick (Int 0)] initial in
  ¬ has_line (board g) ∧
  ∃ k, board g !! k = Some Empty ∧ move_is_valid g (Int (Z.of_nat k)) = true.
Proof.
  cbv zeta.
  apply (game_in_progress_has_a_move [CellClick (Int 4); CellClick (Int 0)]).
  reflexivity.
Defined.

(** X4.  In every reachable state with the game won, the recorded
    winning cells are one of the eight patterns, its three cells carry the
    mark of the player credited with the win (the current player), and any
    completed line on the board is that player's: the loser has none. *)
Theorem winner_owns_the_recorded_line (es : list Event) (p : Player) :
  phase (run es initial) = Won p ->
  p = currentPlayer (run es initial) ∧
  winningCells (run es initial) ∈ winPatterns ∧
  line_of p (board (run es initial)) (winningCells (run es initial)) ∧
  ∀ pattern, pattern ∈ winPatterns ->
             ¬ line_of (other p) (board (run es initial)) pattern.
Proof.
  intros Hphase.
  pose proof (consistent_run es initial wellformed_initial consistent_initial)
    as Hcons.
  unfold consistent in Hcons. rewrite Hphase in Hcons.
  destruct Hcons as (Hin & Hline & Honly). split_and!; [|done|done|].
  - unfold phase in Hphase.
    destruct (gameIsActive _); [done|].
    destruct (winningCells _); congruence.
  - intros pattern Hpattern Hother.
    apply Honly in Hother; [|done]. by apply other_neq in Hother.
Qed.

(** The row win of the scenario: X owns cells 0, 1, 2. *)
Lemma winner_owns_the_recorded_line_witness :
  let g := run (map CellClick [Int 0; Int 3; Int 1; Int 4; Int 2]) initial in
  X = currentPlayer g ∧
  winningCells g ∈ winPatterns ∧
  line_of X (board g) (winningCells g) ∧
  ∀ pattern, pattern ∈ winPatterns -> ¬ line_of (other X) (board g) pattern.
Proof.
  cbv zeta.
  apply (winner_owns_the_recorded_line
           (map CellClick [Int 0; Int 3; Int 1; Int 4; Int 2]) X).
  reflexivity.
Defined.

(** X5.  In every reachable state with the game drawn, all nine cells
    are marked and the board shows no completed line: a draw is never
    declared on a board that a player has won or that has room left. *)
Theorem drawn_board_is_full_without_line (es : list Event) :
  phase (run es initial) = Draw ->
  length (board (run es initial)) = 9 ∧
  Forall (fun c => c ≠ Empty) (board (run es initial)) ∧
  ¬ has_line (board (run es initial)).
Proof.
  intros Hphase.
  pose proof (consistent_run es initial wellformed_initial consistent_initial)
    as Hcons.
  unfold consistent in Hcons. rewrite Hphase in Hcons.
  destruct Hcons as [Hnone Hfull].
  destruct (wellformed_run es initial wellformed_initial) as [Hlen _].
  split_and!; [done | by apply board_full_Forall | done].
Qed.

(** The drawn game of the scenario. *)
Lemma drawn_board_is_full_without_line_witness :
  let g := run (map CellClick
                  [Int 0; Int 1; Int 2; Int 4; Int 3; Int 5; Int 7; Int 6; Int 8])
             initial in
  length (board g) = 9 ∧
  Forall (fun c => c ≠ Empty) (board g) ∧
  ¬ has_line (board g).
Proof.
  cbv zeta.
  apply (drawn_board_is_full_without_line
           (map CellClick
              [Int 0; Int 1; Int 2; Int 4; Int 3; Int 5; Int 7; Int 6; Int 8])).
  reflexivity.
Defined.

(** ** Every round ends *)

Section every_round_ends.
Implicit Types (g : TicTacToe) (l : list Index) (k : nat).

Lemma move_is_valid_empty g k :
  gameIsActive g = true -> board g !! k = Some Empty ->
  move_is_valid g (Int (Z.of_nat k)) = true.
Proof.
  intros Hact Hk. unfold move_is_valid, strict_eq. simpl.
  rewrite (proj2 (Z.leb_le 0 (Z.of_nat k))) by lia.
  rewrite Nat2Z.id, Hk, Hact. by rewrite bool_decide_true.
Qed.

(** While the game stays active, a cell that was clicked is marked. *)
Lemma clicked_cell_is_marked l :
  ∀ g k,
    gameIsActive (clicks l g) = true ->
    Int (Z.of_nat k) ∈ l ->
    k < length (board g) ->
    board (clicks l g) !! k ≠ Some Empty.
Proof.
  induction l as [|index l IH]; intros g k Hact Hin Hk.
  { by apply elem_of_nil in Hin. }
  assert (gameIsActive g = true) as Hg.
  { destruct (gameIsActive g) eqn:Hg; [done|].
    rewrite clicks_inactive in Hact by done. congruence. }
  rewrite clicks_cons in Hact |- *.
  apply elem_of_cons in Hin as [<-|Hin].
  - destruct (lookup_lt_is_Some_2 _ _ Hk) as [[|p] Hcell].
    + pose proof (move_is_valid_empty g k Hg Hcell) as Hvalid.
      pose proof (handleCellClick_board g _ Hvalid) as Hboard.
      destruct (move_is_valid_inv g _ Hvalid) as (n & [= Hn] & _ & _ & Hset).
      apply Nat2Z.inj in Hn. subst n. unfold marked in Hboard.
      rewrite Hset in Hboard.
      rewrite (clicks_keep_mark l _ k (currentPlayer g)); [done|].
      rewrite Hboard. by apply list_lookup_insert_eq.
    + rewrite (clicks_keep_mark l _ k p); [done|].
      by apply handleCellClick_keeps_mark.
  - apply IH; [done..|]. by rewrite handleCellClick_length.
Qed.

Lemma run_app es es' g : run (es ++ es') g = run es' (run es g).
Proof. apply foldl_app. Qed.
End every_round_ends.

(** X6.  From any reachable state, a run of clicks that covers all nine
    cells, in any order and with any other clicks mixed in, leaves the game
    over: a round cannot outlast the board. *)
Theorem clicking_every_cell_ends_the_round (es : list Event) (l : list Index) :
  (∀ k, k < 9 -> Int (Z.of_nat k) ∈ l) ->
  gameIsActive (clicks l (run es initial)) = false.
Proof.
  intros Hall.
  destruct (gameIsActive (clicks l (run es initial))) eqn:Hact; [exfalso|done].
  pose proof (clicks_length l (run es initial)) as Hlen.
  destruct (wellformed_run es initial wellformed_initial) as [Hnine _].
  rewrite Hnine in Hlen.
  pose proof (consistent_run (es ++ map CellClick l) initial
                wellformed_initial consistent_initial) as Hcons.
  rewrite run_app, <- clicks_as_run in Hcons. unfold consistent in Hcons.
  rewrite (proj2 (phase_InProgress _) Hact) in Hcons.
  destruct Hcons as [_ Hfull].
  destruct (open_board_has_move _ Hact Hfull) as (k & Hk & _).
  assert (k < 9) as Hlt by (rewrite <- Hlen; by eapply lookup_lt_Some).
  eapply clicked_cell_is_marked; [exact Hact | by apply Hall | lia | exact Hk].
Qed.

(** After X has taken the centre, the nine cells are clicked in order,
    the centre included: the round is over. *)
Lemma clicking_every_cell_ends_the_round_witness :
  gameIsActive
    (clicks ((fun k => Int (Z.of_nat k)) <$> seq 0 9)
       (run [CellClick (Int 4)] initial))
  = false.
Proof.
  apply (clicking_every_cell_ends_the_round [CellClick (Int 4)]).
  intros k Hk. apply list_elem_of_fmap. exists k. split; [done|].
  apply elem_of_seq. lia.
Defined.

(** ** Scores and deferred callbacks *)

Section callbacks.
Implicit Types (g : TicTacToe) (l : list Index) (index : Index).

Lemma handleCellClick_timeouts g index :
  ∃ new, timeouts (handleCellClick index g) = timeouts g ++ new ∧
         length new = if round_ended g (handleCellClick index g) then 1 else 0.
Proof.
  unfold round_ended. destruct (move_is_valid g index) eqn:Hvalid.
  - rewrite handleCellClick_valid by done. cbv zeta.
    destruct (move_is_valid_inv g index Hvalid) as (_ & _ & _ & Hact & _).
    destruct (checkWin_loop _ _); [|destruct (board_full _)];
      simpl; rewrite ?Hact; simpl.
    + by eexists.
    + by eexists.
    + exists []. by rewrite app_nil_r.
  - rewrite handleCellClick_invalid by done.
    exists []. rewrite app_nil_r. by destruct (gameIsActive g).
Qed.

Lemma clicks_timeouts l g : ∃ new, timeouts (clicks l g) = timeouts g ++ new.
Proof.
  revert g. induction l as [|index l IH]; intros g.
  - exists []. by rewrite app_nil_r.
  - rewrite clicks_cons. destruct (IH (handleCellClick index g)) as [new ->].
    destruct (handleCellClick_timeouts g index) as (new' & -> & _).
    exists (new' ++ new). by rewrite app_assoc.
Qed.
End callbacks.

(** X7.  Apart from reset-all, which zeroes them, no event lowers a
    counter, and the three counters together grow by exactly one when the
    event ends a round and not at all otherwise. *)
Theorem scores_grow_only_when_a_round_ends (g : TicTacToe) (e : Event) :
  let g' := dispatch e g in
  match e with
  | ResetAllClick => scores g' = mkScores 0 0 0
  | _ =>
      scoreX (scores g) <= scoreX (scores g') ∧
      scoreO (scores g) <= scoreO (scores g') ∧
      scoreDraw (scores g) <= scoreDraw (scores g') ∧
      total_score (scores g')
      = total_score (scores g) + (if round_ended g g' then 1 else 0)
  end.
Proof.
  cbv zeta. unfold round_ended, total_score.
  destruct e as [index| | |]; cbn [dispatch].
  - destruct (move_is_valid g index) eqn:Hvalid.
    + rewrite handleCellClick_valid by done. cbv zeta.
      destruct (move_is_valid_inv g index Hvalid) as (_ & _ & _ & Hact & _).
      destruct (checkWin_loop _ _); [|destruct (board_full _)];
        simpl; rewrite ?Hact; simpl.
      * destruct (currentPlayer g); simpl; split_and!; lia.
      * split_and!; lia.
      * split_and!; lia.
    + rewrite handleCellClick_invalid by done.
      destruct (gameIsActive g); simpl; split_and!; lia.
  - simpl. rewrite andb_false_r. split_and!; lia.
  - done.
  - destruct (timeouts g) as [|[] rest]; simpl;
      destruct (gameIsActive g); simpl; split_and!; lia.
Qed.

(** What each event does to the queue, on the fields of the object. *)
Lemma dispatch_timeouts (g : TicTacToe) (e : Event) :
  let g' := dispatch e g in
  match e with
  | TimerFires => timeouts g' = tail (timeouts g)
  | _ =>
      ∃ new, timeouts g' = timeouts g ++ new ∧
             length new = if round_ended g g' then 1 else 0
  end.
Proof.
  cbv zeta.
  destruct e as [index| | |]; cbn [dispatch];
    [apply handleCellClick_timeouts|unfold round_ended..].
  - exists []. simpl. by rewrite app_nil_r, andb_false_r.
  - exists []. simpl. by rewrite app_nil_r, andb_false_r.
  - destruct (timeouts g) as [|[] rest] eqn:Hqueue; simpl; by rewrite ?Hqueue.
Qed.

(** X9.  A manual restart does not cancel the callback of the round
    that just ended.  If the restart comes within the delay and moves of the
    next round are made before the callback fires, the callback starts the
    round over: the marks of those moves are wiped, X is to move again, and
    the scores stay as they are. *)
Theorem stale_callback_restarts_the_next_round
  (g : TicTacToe) (index : Index) (l : list Index) :
  wellformed g ->
  gameIsActive g = true ->
  timeouts g = [] ->
  gameIsActive (handleCellClick index g) = false ->
  let g1 := dispatch RestartClick (handleCellClick index g) in
  let g2 := clicks l g1 in
  let g3 := dispatch TimerFires g2 in
  count_filled (board g2) = length (movers l g1) ∧
  fresh g3 ∧ scores g3 = scores g2 ∧ timeouts g3 = tail (timeouts g2).
Proof.
  intros [Hlen _] Hact Hqueue Hend. cbv zeta.
  destruct (handleCellClick_timeouts g index) as (new & Hnew & Hone).
  unfold round_ended in Hone. rewrite Hact, Hend, Hqueue in *. simpl in *.
  destruct new as [|t [|??]]; try done. clear Hone.
  destruct (clicks_timeouts l (resetGame (handleCellClick index g)))
    as [new Hnew'].
  cbn [timeouts resetGame set_winningCells set_gameIsActive set_currentPlayer
       set_board] in Hnew'.
  rewrite Hnew in Hnew'. simpl in Hnew'.
  assert (length (board (clicks l (resetGame (handleCellClick index g)))) = 9)
    as Hnine.
  { rewrite clicks_length. simpl.
    by rewrite length_replicate, handleCellClick_length. }
  split_and!.
  - rewrite clicks_count_filled. simpl. by rewrite count_filled_replicate.
  - cbn [dispatch]. rewrite Hnew'.
    destruct t; cbn [runTimeout]; apply fresh_resetGame; exact Hnine.
  - cbn [dispatch]. rewrite Hnew'. by destruct t.
  - cbn [dispatch]. rewrite Hnew'. by destruct t.
Qed.

(** X wins, restart is pressed, X and O each make a move, and then the
    callback of the won round fires. *)
Lemma stale_callback_restarts_the_next_round_witness :
  let g := clicks [Int 0; Int 3; Int 1; Int 4] initial in
  let g1 := dispatch RestartClick (handleCellClick (Int 2) g) in
  let g2 := clicks [Int 4; Int 0] g1 in
  let g3 := dispatch TimerFires g2 in
  count_filled (board g2) = length (movers [Int 4; Int 0] g1) ∧
  fresh g3 ∧ scores g3 = scores g2 ∧ timeouts g3 = tail (timeouts g2).
Proof.
  cbv zeta.
  apply (stale_callback_restarts_the_next_round
           (clicks [Int 0; Int 3; Int 1; Int 4] initial) (Int 2) [Int 4; Int 0]).
  - split; [reflexivity | intros _; reflexivity].
  - reflexivity.
  - reflexivity.
  - reflexivity.
Defined.

(** ** Resets compose *)

(** Two objects with the same fields are the same object. *)
Lemma game_ext (g g' : TicTacToe) :
  board g = board g' ->
  currentPlayer g = currentPlayer g' ->
  gameIsActive g = gameIsActive g' ->
  scores g = scores g' ->
  winningCells g = winningCells g' ->
  timeouts g = timeouts g' ->
  g = g'.
Proof. destruct g, g'. simpl. congruence. Qed.

(** X10.  A reset right after a reset changes nothing more: restarting
    twice is restarting once, resetting all twice is resetting all once, and
    a restart before or after a reset-all is absorbed by it. *)
Theorem resets_absorb_each_other (g : TicTacToe) :
  resetGame (resetGame g) = resetGame g ∧
  resetAll (resetAll g) = resetAll g ∧
  resetAll (resetGame g) = resetAll g ∧
  resetGame (resetAll g) = resetAll g.
Proof.
  split_and!; apply game_ext; try reflexivity;
    simpl; by rewrite length_replicate.
Qed.

(** ** What [checkWin] detects *)

(** X11.  [checkWin] returns [true] exactly when one of the eight
    patterns has its three cells marked by the same player.  It changes no
    field other than [winningCells], and when it returns [false] it changes
    nothing at all. *)
Theorem checkWin_detects_completed_lines (g : TicTacToe) :
  (fst (checkWin g) = true <-> has_line (board g)) ∧
  (fst (checkWin g) = false -> snd (checkWin g) = g) ∧
  snd (checkWin g) = set_winningCells (winningCells (snd (checkWin g))) g.
Proof.
  unfold checkWin.
  destruct (checkWin_loop (board g) winPatterns) as [pattern|] eqn:Hloop; simpl.
  - split_and!; [|done|done]. split; [|done]. intros _.
    apply checkWin_loop_has_line. by eexists.
  - split_and!; [|done|by destruct g]. split; [done|].
    intros Hline%checkWin_loop_has_line. rewrite Hloop in Hline.
    by destruct Hline.
Qed.

(** ** How early a round can end *)

Section earliest_end.
Implicit Types (g : TicTacToe) (brd : list Cell) (p : Player) (n : nat).

Lemma count_mark_take_out brd n p :
  brd !! n = Some (Mark p) ->
  count_mark p brd = S (count_mark p (<[n := Empty]> brd)).
Proof.
  unfold count_mark. revert n.
  induction brd as [|c brd IH]; intros [|n] Hn; [done..| |];
    cbn [lookup list_lookup] in Hn; cbn [insert list_insert].
  - injection Hn as ->. rewrite filter_cons_True by done.
    by rewrite (filter_cons_False _ Empty) by discriminate.
  - specialize (IH n Hn).
    destruct (decide (c = Mark p)) as [Hc|Hc].
    + rewrite !filter_cons_True by done. simpl. by rewrite IH.
    + by rewrite !filter_cons_False by done.
Qed.

Lemma three_marks brd a b c p :
  a ≠ b -> a ≠ c -> b ≠ c ->
  line_of p brd [a; b; c] -> 3 <= count_mark p brd.
Proof.
  intros Hab Hac Hbc Hline. unfold line_of in Hline.
  rewrite !Forall_cons in Hline. destruct Hline as (Ha & Hb & Hc & _).
  rewrite (count_mark_take_out brd a p Ha).
  rewrite <- (list_lookup_insert_ne brd a b Empty) in Hb by done.
  rewrite (count_mark_take_out _ b p Hb).
  rewrite <- (list_lookup_insert_ne brd a c Empty) in Hc by done.
  rewrite <- (list_lookup_insert_ne _ b c Empty) in Hc by done.
  rewrite (count_mark_take_out _ c p Hc). lia.
Qed.

(** A completed line takes three marks of its owner. *)
Lemma line_needs_three_marks brd pattern p :
  pattern ∈ winPatterns -> line_of p brd pattern -> 3 <= count_mark p brd.
Proof.
  unfold winPatterns. rewrite !elem_of_cons, elem_of_nil.
  intros H Hline.
  repeat (destruct H as [->|H]; [by apply three_marks in Hline|]). done.
Qed.

Lemma count_filled_split brd :
  count_filled brd = count_mark X brd + count_mark O brd.
Proof.
  unfold count_filled, count_mark.
  induction brd as [|[|[|]] brd IH]; [done|..].
  - by rewrite !filter_cons_False by (try discriminate; intros H; by apply H).
  - rewrite (filter_cons_True (fun c => c ≠ Empty)) by done.
    rewrite (filter_cons_True (fun c => c = Mark X)) by done.
    rewrite (filter_cons_False (fun c => c = Mark O)) by done.
    simpl. by rewrite IH.
  - rewrite (filter_cons_True (fun c => c ≠ Empty)) by done.
    rewrite (filter_cons_False (fun c => c = Mark X)) by done.
    rewrite (filter_cons_True (fun c => c = Mark O)) by done.
    simpl. rewrite IH. lia.
Qed.

Lemma fresh_wellformed g : fresh g -> wellformed g.
Proof. intros (Hboard & _ & _ & Hwin). split; [by rewrite Hboard|done]. Qed.

Lemma fresh_consistent g : fresh g -> consistent g.
Proof.
  intros (Hboard & _ & Hact & _). unfold consistent.
  rewrite (proj2 (phase_InProgress g) Hact), Hboard.
  split; [apply no_line_replicate | reflexivity].
Qed.

Lemma fresh_balanced g : fresh g -> balanced g.
Proof.
  intros (Hboard & Hturn & _ & _). unfold balanced.
  rewrite Hboard, Hturn, !count_mark_replicate. by split; [|left].
Qed.
End earliest_end.

(** X12.  Counting the accepted moves of a round from its start: X
    cannot have won before the fifth move, O cannot have won before the
    sixth, and a draw is only ever reached with the ninth.  In particular
    the game is still in progress after fewer than five moves. *)
Theorem no_round_ends_before_the_fifth_move (g : TicTacToe) (l : list Index) :
  fresh g ->
  match phase (clicks l g) with
  | InProgress => True
  | Won X => 5 <= length (movers l g)
  | Won O => 6 <= length (movers l g)
  | Draw => length (movers l g) = 9
  end.
Proof.
  intros Hfresh.
  pose proof (clicks_count_filled l g) as Hcount.
  pose proof (clicks_length l g) as Hlen.
  pose proof Hfresh as (Hboard & _).
  rewrite Hboard, count_filled_replicate in Hcount.
  rewrite Hboard, length_replicate in Hlen.
  rewrite clicks_as_run in *.
  pose proof (consistent_run (map CellClick l) g
                (fresh_wellformed g Hfresh) (fresh_consistent g Hfresh)) as Hcons.
  pose proof (balanced_run (map CellClick l) g (fresh_balanced g Hfresh))
    as [_ Hbal].
  rewrite count_filled_split in Hcount. unfold consistent in Hcons.
  destruct (phase (run (map CellClick l) g)) as [|[|]|]; [done|..].
  - destruct Hcons as (Hin & Hline & _).
    pose proof (line_needs_three_marks _ _ _ Hin Hline). lia.
  - destruct Hcons as (Hin & Hline & _).
    pose proof (line_needs_three_marks _ _ _ Hin Hline). lia.
  - destruct Hcons as [_ Hfull]. apply board_full_count in Hfull.
    rewrite count_filled_split in Hfull. lia.
Qed.

(** The row win of the scenario takes five moves. *)
Lemma no_round_ends_before_the_fifth_move_witness :
  let l := [Int 0; Int 3; Int 1; Int 4; Int 2] in
  phase (clicks l initial) = Won X ∧ 5 <= length (movers l initial).
Proof.
  cbv zeta. split; [reflexivity|].
  assert (fresh initial) as Hfresh by (repeat split).
  exact (no_round_ends_before_the_fifth_move initial
           [Int 0; Int 3; Int 1; Int 4; Int 2] Hfresh).
Defined.


(** * The page *)

(** ** The handlers act on the object as the engine does *)

(** Unfolds the field updates of a page given by its fields. *)
Ltac page_fields :=
  cbv [Page.this Page.soundEnabled Page.musicEnabled Page.cells
       Page.statusText Page.statusClassList Page.scoreXText Page.scoreOText
       Page.scoreDrawText Page.soundToggleText Page.musicToggleText Page.calls
       Page.set_this Page.set_soundEnabled Page.set_musicEnabled Page.set_cells
       Page.set_statusText Page.set_statusClassList Page.set_scoreXText
       Page.set_scoreOText Page.set_scoreDrawText Page.set_soundToggleText
       Page.set_musicToggleText Page.set_calls Page.on_this Page.on_cell
       Page.call Page.set_scoreText Page.updateStatus Page.playSound
       Page.playBackgroundMusic].

(** Unfolds the field updates of an object given by its fields. *)
Ltac game_fields :=
  cbv [board currentPlayer gameIsActive scores winningCells timeouts
       set_board set_currentPlayer set_gameIsActive set_scores
       set_winningCells set_timeouts].

Section page_engine.
Implicit Types (pg : Page.t) (k : nat) (cell : Page.CellElement).

Lemma set_this_this pg : Page.set_this (Page.this pg) pg = pg.
Proof. by destruct pg. Qed.

(** The three outcomes of an accepted click on the page. *)
Lemma page_handleCellClick_valid pg k musicPaused cell :
  Page.cells pg !! k = Some cell ->
  move_is_valid (Page.this pg) (Page.dataIndex cell) = true ->
  Page.handleCellClick k musicPaused pg =
    let pg1 := Page.marked k musicPaused cell pg in
    match checkWin_loop (board (Page.this pg1)) winPatterns with
    | Some pattern =>
        Page.handleWin
          (Page.set_this (set_winningCells pattern (Page.this pg1)) pg1)
    | None =>
        if board_full (board (Page.this pg1)) then Some (Page.handleDraw pg1)
        else
          Some (Page.updateStatus
                  (Page.turn_message (other (currentPlayer (Page.this pg1))))
                  (Page.on_this
                     (set_currentPlayer (other (currentPlayer (Page.this pg1))))
                     pg1))
    end.
Proof.
  intros Hcell Hvalid. unfold Page.handleCellClick. rewrite Hcell.
  unfold move_is_valid in Hvalid. rewrite Hvalid. cbv zeta.
  unfold checkWin.
  destruct (checkWin_loop _ _); cbv beta iota zeta; [reflexivity|].
  by rewrite set_this_this.
Qed.

Lemma page_handleCellClick_invalid pg k musicPaused cell :
  Page.cells pg !! k = Some cell ->
  move_is_valid (Page.this pg) (Page.dataIndex cell) = false ->
  Page.handleCellClick k musicPaused pg = Some pg.
Proof.
  intros Hcell Hvalid. unfold Page.handleCellClick. rewrite Hcell.
  unfold move_is_valid in Hvalid. by rewrite Hvalid.
Qed.

Lemma this_marked pg k musicPaused cell :
  Page.this (Page.marked k musicPaused cell pg)
  = set_board (marked (Page.this pg) (Page.dataIndex cell)) (Page.this pg).
Proof.
  destruct pg as [g se me cs st scl sx so sd stt mtt cl].
  unfold Page.marked. page_fields.
  by destruct me, musicPaused, se.
Qed.

Lemma this_handleWin pg pg' :
  Page.handleWin pg = Some pg' -> Page.this pg' = handleWin (Page.this pg).
Proof.
  destruct pg as [g se me cs st scl sx so sd stt mtt cl].
  destruct g as [brd p a s w t].
  unfold Page.handleWin, Page.highlightWinningCells, handleWin.
  page_fields. game_fields.
  destruct p; (destruct (Page.highlight_loop _ _); [|done]);
    intros [= <-]; by destruct se, me.
Qed.

Lemma this_handleDraw pg : Page.this (Page.handleDraw pg) = handleDraw (Page.this pg).
Proof.
  destruct pg as [g se me cs st scl sx so sd stt mtt cl].
  unfold Page.handleDraw. page_fields. by destruct se.
Qed.

Lemma this_resetGame pg : Page.this (Page.resetGame pg) = resetGame (Page.this pg).
Proof.
  destruct pg as [g se me cs st scl sx so sd stt mtt cl].
  unfold Page.resetGame. page_fields. by destruct me.
Qed.

Lemma this_resetAll pg : Page.this (Page.resetAll pg) = resetAll (Page.this pg).
Proof. unfold Page.resetAll. cbv zeta. by rewrite this_resetGame. Qed.

Lemma this_handleCellClick pg pg' k musicPaused cell :
  Page.cells pg !! k = Some cell ->
  Page.handleCellClick k musicPaused pg = Some pg' ->
  Page.this pg' = handleCellClick (Page.dataIndex cell) (Page.this pg).
Proof.
  intros Hcell. destruct (move_is_valid (Page.this pg) (Page.dataIndex cell))
    eqn:Hvalid.
  - rewrite (page_handleCellClick_valid _ _ _ _ Hcell Hvalid). cbv zeta.
    rewrite handleCellClick_valid by done. cbv zeta.
    rewrite this_marked. cbn [board set_board].
    destruct (checkWin_loop _ _) as [pattern|].
    + intros Hwin%this_handleWin. rewrite Hwin.
      destruct (Page.marked _ _ _ _) eqn:Hm. simpl.
      apply (f_equal Page.this) in Hm. rewrite this_marked in Hm.
      simpl in Hm. by rewrite Hm.
    + destruct (board_full _); intros [= <-].
      * by rewrite this_handleDraw, this_marked.
      * destruct (Page.marked _ _ _ _) eqn:Hm. simpl.
        apply (f_equal Page.this) in Hm. rewrite this_marked in Hm.
        simpl in Hm. by rewrite Hm.
  - rewrite (page_handleCellClick_invalid _ _ _ _ Hcell Hvalid).
    intros [= <-]. by rewrite handleCellClick_invalid.
Qed.

Lemma this_dispatch pg pg' e :
  Page.dispatch e pg = Some pg' ->
  Page.this pg' = match engine_event (Page.cells pg) e with
                  | Some e' => dispatch e' (Page.this pg)
                  | None => Page.this pg
                  end.
Proof.
  destruct e as [k musicPaused| | | | |]; cbn [Page.dispatch engine_event].
  - destruct (Page.cells pg !! k) as [cell|] eqn:Hcell.
    + by apply this_handleCellClick.
    + unfold Page.handleCellClick. rewrite Hcell. by intros [= <-].
  - intros [= <-]. apply this_resetGame.
  - intros [= <-]. apply this_resetAll.
  - intros [= <-]. by destruct pg.
  - intros [= <-]. destruct pg as [g se me cs st scl sx so sd stt mtt cl].
    unfold Page.toggleMusic. page_fields. by destruct me.
  - cbn [dispatch]. destruct (timeouts (Page.this pg)) as [|tm rest] eqn:Hq;
      intros [= <-]; [done|].
    destruct tm; cbn [Page.runTimeout runTimeout]; cbv zeta.
    + destruct pg as [g se me cs st scl sx so sd stt mtt cl].
      unfold Page.resetGame. page_fields. by destruct me.
    + by rewrite this_resetGame.
Qed.
End page_engine.

(** ** The page after each handler, field by field *)

Section page_normal_forms.
Implicit Types (pg : Page.t) (k : nat) (cell : Page.CellElement).

Lemma marked_eq pg k musicPaused cell :
  Page.cells pg !! k = Some cell ->
  Page.marked k musicPaused cell pg =
    Page.mk
      (set_board (marked (Page.this pg) (Page.dataIndex cell)) (Page.this pg))
      (Page.soundEnabled pg) (Page.musicEnabled pg)
      (<[k := marked_cell (currentPlayer (Page.this pg)) cell]> (Page.cells pg))
      (Page.statusText pg) (Page.statusClassList pg)
      (Page.scoreXText pg) (Page.scoreOText pg) (Page.scoreDrawText pg)
      (Page.soundToggleText pg) (Page.musicToggleText pg)
      (Page.calls pg ++ click_calls pg musicPaused).
Proof.
  intros Hcell.
  destruct pg as [g se me cs st scl sx so sd stt mtt cl].
  unfold Page.marked, click_calls. page_fields. cbn in Hcell.
  assert (alter
            (fun c => Page.set_classList
                        (Page.classList c
                         ∪ {["player-" +:+ toLowerCase (player_str (currentPlayer g))]})
                        c) k
            (alter (Page.set_dataPlayer (Some (player_str (currentPlayer g)))) k
               (alter (Page.set_textContent (player_str (currentPlayer g))) k cs))
          = <[k := marked_cell (currentPlayer g) cell]> cs) as Hcells.
  { apply list_eq. intros j. destruct (decide (j = k)) as [->|Hjk].
    - rewrite !list_lookup_alter_eq, Hcell.
      rewrite list_lookup_insert_eq by (by eapply lookup_lt_Some). done.
    - rewrite !list_lookup_alter_ne by done.
      by rewrite list_lookup_insert_ne by done. }
  destruct me, musicPaused, se; cbn [andb app]; rewrite ?Hcells;
    rewrite <- ?app_assoc, ?app_nil_r; reflexivity.
Qed.

Lemma handleWin_eq pg :
  Page.handleWin pg =
    match Page.highlight_loop (winningCells (Page.this pg)) (Page.cells pg) with
    | None => None
    | Some cs =>
        Some (Page.mk
                (handleWin (Page.this pg))
                (Page.soundEnabled pg) (Page.musicEnabled pg) cs
                ("🎉 Player " +:+ player_str (currentPlayer (Page.this pg))
                 +:+ " wins! 🎉")
                (Page.statusClassList pg ∪ {["win"%string]})
                (match currentPlayer (Page.this pg) with
                 | X => pretty (S (scoreX (scores (Page.this pg))))
                 | O => Page.scoreXText pg
                 end)
                (match currentPlayer (Page.this pg) with
                 | X => Page.scoreOText pg
                 | O => pretty (S (scoreO (scores (Page.this pg))))
                 end)
                (Page.scoreDrawText pg)
                (Page.soundToggleText pg) (Page.musicToggleText pg)
                (Page.calls pg ++ win_calls pg))
    end.
Proof.
  destruct pg as [[brd p a s w t] se me cs st scl sx so sd stt mtt cl].
  unfold Page.handleWin, Page.highlightWinningCells, handleWin, win_calls.
  page_fields. game_fields.
  destruct p; (destruct (Page.highlight_loop _ _); [|done]);
    destruct se, me; cbn [app]; rewrite <- ?app_assoc, ?app_nil_r; reflexivity.
Qed.

Lemma handleDraw_eq pg :
  Page.handleDraw pg =
    Page.mk
      (handleDraw (Page.this pg))
      (Page.soundEnabled pg) (Page.musicEnabled pg) (Page.cells pg)
      "🤝 It's a draw!" (Page.statusClassList pg)
      (Page.scoreXText pg) (Page.scoreOText pg)
      (pretty (S (scoreDraw (scores (Page.this pg)))))
      (Page.soundToggleText pg) (Page.musicToggleText pg)
      (Page.calls pg
       ++ if Page.soundEnabled pg
          then [Page.SetCurrentTime Page.draw; Page.Play Page.draw] else []).
Proof.
  destruct pg as [[brd p a s w t] se me cs st scl sx so sd stt mtt cl].
  unfold Page.handleDraw, handleDraw. page_fields. game_fields.
  destruct se; rewrite ?app_nil_r; reflexivity.
Qed.

Lemma resetGame_eq pg :
  Page.resetGame pg =
    Page.mk
      (resetGame (Page.this pg))
      (Page.soundEnabled pg) (Page.musicEnabled pg)
      (Page.reset_cell <$> Page.cells pg)
      (Page.turn_message X) (Page.statusClassList pg)
      (Page.scoreXText pg) (Page.scoreOText pg) (Page.scoreDrawText pg)
      (Page.soundToggleText pg) (Page.musicToggleText pg)
      (Page.calls pg ++ reset_calls pg).
Proof.
  destruct pg as [[brd p a s w t] se me cs st scl sx so sd stt mtt cl].
  unfold Page.resetGame, resetGame, reset_calls. page_fields. game_fields.
  destruct me; rewrite ?app_nil_r; reflexivity.
Qed.

Lemma resetAll_eq pg :
  Page.resetAll pg =
    Page.mk
      (resetAll (Page.this pg))
      (Page.soundEnabled pg) (Page.musicEnabled pg)
      (Page.reset_cell <$> Page.cells pg)
      (Page.turn_message X) (Page.statusClassList pg)
      "0" "0" "0"
      (Page.soundToggleText pg) (Page.musicToggleText pg)
      (Page.calls pg ++ reset_calls pg).
Proof.
  unfold Page.resetAll. cbv zeta. rewrite resetGame_eq.
  by destruct pg as [[brd p a s w t] se me cs st scl sx so sd stt mtt cl].
Qed.

Lemma toggleSound_eq pg :
  Page.toggleSound pg =
    Page.mk
      (Page.this pg) (negb (Page.soundEnabled pg)) (Page.musicEnabled pg)
      (Page.cells pg) (Page.statusText pg) (Page.statusClassList pg)
      (Page.scoreXText pg) (Page.scoreOText pg) (Page.scoreDrawText pg)
      (if negb (Page.soundEnabled pg) then "🔊" else "🔇")
      (Page.musicToggleText pg) (Page.calls pg).
Proof. by destruct pg. Qed.

Lemma toggleMusic_eq pg :
  Page.toggleMusic pg =
    Page.mk
      (Page.this pg) (Page.soundEnabled pg) (negb (Page.musicEnabled pg))
      (Page.cells pg) (Page.statusText pg) (Page.statusClassList pg)
      (Page.scoreXText pg) (Page.scoreOText pg) (Page.scoreDrawText pg)
      (Page.soundToggleText pg)
      (if negb (Page.musicEnabled pg) then "🎵" else "🔇")
      (Page.calls pg
       ++ if negb (Page.musicEnabled pg)
          then [Page.SetVolume Page.music; Page.Play Page.music]
          else [Page.Pause Page.music]).
Proof.
  destruct pg as [g se me cs st scl sx so sd stt mtt cl].
  unfold Page.toggleMusic. page_fields. by destruct me.
Qed.

Lemma timer_eq pg tm rest :
  Page.runTimeout tm (Page.on_this (set_timeouts rest) pg) =
    Page.mk
      (runTimeout tm (set_timeouts rest (Page.this pg)))
      (Page.soundEnabled pg) (Page.musicEnabled pg)
      (Page.reset_cell <$> Page.cells pg)
      (Page.turn_message X)
      (match tm with
       | AfterWin => Page.statusClassList pg ∖ {["win"%string]}
       | AfterDraw => Page.statusClassList pg
       end)
      (Page.scoreXText pg) (Page.scoreOText pg) (Page.scoreDrawText pg)
      (Page.soundToggleText pg) (Page.musicToggleText pg)
      (Page.calls pg ++ reset_calls pg).
Proof.
  destruct pg as [[brd p a s w t] se me cs st scl sx so sd stt mtt cl].
  unfold Page.runTimeout, Page.resetGame, runTimeout, resetGame, reset_calls.
  page_fields. game_fields.
  destruct tm, me; rewrite ?app_nil_r; reflexivity.
Qed.

(** What [highlightWinningCells] does to the node list: it throws
exactly when an index is past the end, and otherwise adds the class to
the cells it names and leaves the others alone. *)
Lemma highlight_loop_spec indices :
  ∀ cs cs',
    Page.highlight_loop indices cs = Some cs' ->
    length cs' = length cs ∧
    ∀ j c, cs !! j = Some c ->
           cs' !! j = Some (if decide (j ∈ indices) then highlighted c else c).
Proof.
  induction indices as [|index rest IH]; intros cs cs'; cbn [Page.highlight_loop].
  - intros [= <-]. split; [done|]. intros j c Hj.
    rewrite decide_False by apply not_elem_of_nil. done.
  - destruct (cs !! index) as [cell|] eqn:Hcell; [|done]. intros Hloop.
    apply IH in Hloop as [Hlen Hcells]. rewrite length_insert in Hlen.
    split; [done|]. intros j c Hj.
    fold (highlighted cell) in Hcells.
    destruct (decide (j = index)) as [->|Hne].
    + assert (c = cell) as -> by congruence.
      rewrite (Hcells index (highlighted cell))
        by (apply list_lookup_insert_eq; by eapply lookup_lt_Some).
      rewrite (decide_True (P := index ∈ index :: rest)) by left.
      f_equal. destruct (decide (index ∈ rest)); [|done].
      destruct cell as [i tx dp cl]. unfold highlighted, Page.set_classList.
      cbn. f_equal. by rewrite <- (assoc_L (∪)), (idemp_L (∪)).
    + rewrite (Hcells j c) by (by rewrite list_lookup_insert_ne).
      f_equal. destruct (decide (j ∈ rest)) as [Hin|Hout].
      * rewrite decide_True by (by right). done.
      * rewrite decide_False; [done|]. by intros [?|?]%elem_of_cons.
Qed.

Lemma highlight_loop_is_Some indices cs :
  Forall (fun index => index < length cs) indices ->
  is_Some (Page.highlight_loop indices cs).
Proof.
  revert cs. induction indices as [|index rest IH]; intros cs Hall;
    cbn [Page.highlight_loop]; [by eexists|].
  apply Forall_cons in Hall as [Hindex Hrest].
  destruct (lookup_lt_is_Some_2 _ _ Hindex) as [cell ->].
  apply IH. by rewrite length_insert.
Qed.
End page_normal_forms.

Section page_click.
Implicit Types (pg : Page.t) (k : nat) (cell : Page.CellElement).

(** The page after an accepted click, in each of its three outcomes. *)
Lemma page_click_eq pg k musicPaused cell :
  Page.cells pg !! k = Some cell ->
  move_is_valid (Page.this pg) (Page.dataIndex cell) = true ->
  Page.handleCellClick k musicPaused pg =
    let g := Page.this pg in
    let g' := handleCellClick (Page.dataIndex cell) g in
    let cs := <[k := marked_cell (currentPlayer g) cell]> (Page.cells pg) in
    match checkWin_loop (marked g (Page.dataIndex cell)) winPatterns with
    | Some pattern =>
        match Page.highlight_loop pattern cs with
        | None => None
        | Some cs' =>
            Some (Page.mk g' (Page.soundEnabled pg) (Page.musicEnabled pg) cs'
                    ("🎉 Player " +:+ player_str (currentPlayer g) +:+ " wins! 🎉")
                    (Page.statusClassList pg ∪ {["win"%string]})
                    (match currentPlayer g with
                     | X => pretty (S (scoreX (scores g)))
                     | O => Page.scoreXText pg
                     end)
                    (match currentPlayer g with
                     | X => Page.scoreOText pg
                     | O => pretty (S (scoreO (scores g)))
                     end)
                    (Page.scoreDrawText pg)
                    (Page.soundToggleText pg) (Page.musicToggleText pg)
                    ((Page.calls pg ++ click_calls pg musicPaused)
                     ++ win_calls pg))
        end
    | None =>
        if board_full (marked g (Page.dataIndex cell)) then
          Some (Page.mk g' (Page.soundEnabled pg) (Page.musicEnabled pg) cs
                  "🤝 It's a draw!" (Page.statusClassList pg)
                  (Page.scoreXText pg) (Page.scoreOText pg)
                  (pretty (S (scoreDraw (scores g))))
                  (Page.soundToggleText pg) (Page.musicToggleText pg)
                  ((Page.calls pg ++ click_calls pg musicPaused)
                   ++ if Page.soundEnabled pg
                      then [Page.SetCurrentTime Page.draw; Page.Play Page.draw]
                      else []))
        else
          Some (Page.mk g' (Page.soundEnabled pg) (Page.musicEnabled pg) cs
                  (Page.turn_message (other (currentPlayer g)))
                  (Page.statusClassList pg)
                  (Page.scoreXText pg) (Page.scoreOText pg)
                  (Page.scoreDrawText pg)
                  (Page.soundToggleText pg) (Page.musicToggleText pg)
                  (Page.calls pg ++ click_calls pg musicPaused))
    end.
Proof.
  intros Hcell Hvalid. cbv zeta.
  rewrite (page_handleCellClick_valid _ _ _ _ Hcell Hvalid). cbv zeta.
  rewrite (handleCellClick_valid _ _ Hvalid). cbv zeta.
  rewrite (marked_eq _ _ _ _ Hcell). cbn [Page.this board set_board].
  destruct (checkWin_loop _ _) as [pattern|].
  - rewrite handleWin_eq. unfold win_calls.
    cbn [Page.this Page.set_this Page.cells Page.soundEnabled Page.musicEnabled
         Page.statusClassList Page.scoreXText Page.scoreOText Page.scoreDrawText
         Page.soundToggleText Page.musicToggleText Page.calls
         winningCells set_winningCells currentPlayer set_board scores].
    by destruct (Page.highlight_loop _ _).
  - destruct (board_full _).
    + rewrite handleDraw_eq.
      by cbn [Page.this Page.cells Page.soundEnabled Page.musicEnabled
              Page.statusClassList Page.scoreXText Page.scoreOText
              Page.scoreDrawText Page.soundToggleText Page.musicToggleText
              Page.calls scores set_board].
    + reflexivity.
Qed.
End page_click.

(** ** The node list keeps its shape *)

Section page_cells.
Implicit Types (pg : Page.t) (k : nat) (cell : Page.CellElement)
  (cs : list Page.CellElement).

Lemma highlight_loop_indexes indices cs cs' :
  Page.highlight_loop indices cs = Some cs' ->
  Page.dataIndex <$> cs' = Page.dataIndex <$> cs.
Proof.
  intros [Hlen Hcells]%highlight_loop_spec. apply list_eq. intros j.
  rewrite !list_lookup_fmap. destruct (cs !! j) as [c|] eqn:Hj.
  - rewrite (Hcells j c Hj). by destruct (decide _).
  - apply lookup_ge_None in Hj. rewrite <- Hlen in Hj.
    apply lookup_ge_None in Hj. by rewrite Hj.
Qed.

Lemma marked_cell_indexes cs k p cell :
  cs !! k = Some cell ->
  Page.dataIndex <$> <[k := marked_cell p cell]> cs = Page.dataIndex <$> cs.
Proof.
  intros Hcell. rewrite list_fmap_insert. apply list_insert_id.
  by rewrite list_lookup_fmap, Hcell.
Qed.

Lemma reset_cell_indexes cs :
  Page.dataIndex <$> (Page.reset_cell <$> cs) = Page.dataIndex <$> cs.
Proof. rewrite <- list_fmap_compose. by apply list_fmap_ext. Qed.

(** No handler writes a [data-index] attribute or changes the node
list's length. *)
Lemma dispatch_indexes pg pg' e :
  Page.dispatch e pg = Some pg' ->
  Page.dataIndex <$> Page.cells pg' = Page.dataIndex <$> Page.cells pg.
Proof.
  destruct e as [k musicPaused| | | | |]; cbn [Page.dispatch].
  - destruct (Page.cells pg !! k) as [cell|] eqn:Hcell.
    + destruct (move_is_valid (Page.this pg) (Page.dataIndex cell)) eqn:Hvalid.
      * rewrite (page_click_eq _ _ _ _ Hcell Hvalid). cbv zeta.
        destruct (checkWin_loop _ _) as [pattern|].
        -- destruct (Page.highlight_loop _ _) as [cs'|] eqn:Hloop; [|done].
           intros [= <-]. cbn [Page.cells].
           rewrite (highlight_loop_indexes _ _ _ Hloop).
           by apply marked_cell_indexes.
        -- destruct (board_full _); intros [= <-]; cbn [Page.cells];
             by apply marked_cell_indexes.
      * rewrite (page_handleCellClick_invalid _ _ _ _ Hcell Hvalid).
        by intros [= <-].
    + unfold Page.handleCellClick. rewrite Hcell. by intros [= <-].
  - intros [= <-]. rewrite resetGame_eq. apply reset_cell_indexes.
  - intros [= <-]. rewrite resetAll_eq. apply reset_cell_indexes.
  - intros [= <-]. by rewrite toggleSound_eq.
  - intros [= <-]. by rewrite toggleMusic_eq.
  - destruct (timeouts (Page.this pg)) as [|tm rest]; intros [= <-]; [done|].
    rewrite timer_eq. apply reset_cell_indexes.
Qed.

Lemma engine_event_ext cs cs' e :
  Page.dataIndex <$> cs = Page.dataIndex <$> cs' ->
  engine_event cs e = engine_event cs' e.
Proof.
  intros Heq. destruct e as [k musicPaused| | | | |]; try done.
  cbn [engine_event].
  assert (Page.dataIndex <$> cs !! k = Page.dataIndex <$> cs' !! k) as Hk
    by (by rewrite <- !list_lookup_fmap, Heq).
  destruct (cs !! k), (cs' !! k); simpl in Hk; congruence.
Qed.

Lemma engine_events_ext cs cs' es :
  Page.dataIndex <$> cs = Page.dataIndex <$> cs' ->
  engine_events cs es = engine_events cs' es.
Proof.
  intros Heq. unfold engine_events.
  induction es as [|e es IH]; [done|]. cbn [omap list_omap].
  by rewrite (engine_event_ext _ _ _ Heq), IH.
Qed.

Lemma winPatterns_bound pattern :
  pattern ∈ winPatterns -> Forall (fun index => index < 9) pattern.
Proof.
  unfold winPatterns. rewrite !elem_of_cons, elem_of_nil.
  intros H. repeat (destruct H as [->|H]; [repeat constructor; lia|]). done.
Qed.

Lemma dispatch_is_Some pg e :
  9 <= length (Page.cells pg) -> is_Some (Page.dispatch e pg).
Proof.
  intros Hnine. destruct e as [k musicPaused| | | | |]; cbn [Page.dispatch];
    try by eexists.
  - destruct (Page.cells pg !! k) as [cell|] eqn:Hcell.
    + destruct (move_is_valid (Page.this pg) (Page.dataIndex cell)) eqn:Hvalid.
      * rewrite (page_click_eq _ _ _ _ Hcell Hvalid). cbv zeta.
        destruct (checkWin_loop _ _) as [pattern|] eqn:Hloop.
        -- destruct (highlight_loop_is_Some pattern
                       (<[k := marked_cell (currentPlayer (Page.this pg)) cell]>
                          (Page.cells pg))) as [cs' ->]; [|by eexists].
           apply checkWin_loop_Some in Hloop as (before & after & Heq & _).
           assert (pattern ∈ winPatterns) as Hin
             by (rewrite Heq; apply elem_of_app; right; left).
           eapply Forall_impl; [by apply winPatterns_bound|].
           intros index Hindex. rewrite length_insert. simpl in *. lia.
        -- destruct (board_full _); by eexists.
      * rewrite (page_handleCellClick_invalid _ _ _ _ Hcell Hvalid). by eexists.
    + unfold Page.handleCellClick. rewrite Hcell. by eexists.
  - destruct (timeouts (Page.this pg)); by eexists.
Qed.

Lemma dispatch_length pg pg' e :
  Page.dispatch e pg = Some pg' ->
  length (Page.cells pg') = length (Page.cells pg).
Proof.
  intros Heq%dispatch_indexes.
  by rewrite <- (length_fmap Page.dataIndex), Heq, length_fmap.
Qed.
End page_cells.

(** X13.  The document and the audio never feed back into the game.  After
    any run of page events that does not throw, the fields of the object
    are what the engine computes from the cell indices clicked, the
    restarts, the reset-alls and the callbacks alone: the sound and music
    toggles, the reading of [music.paused], the texts and the classes play
    no part.  The [data-index] attributes are as they were. *)
Theorem page_runs_follow_the_engine
  (pg pg' : Page.t) (es : list Page.Event) :
  Page.run es pg = Some pg' ->
  Page.this pg' = run (engine_events (Page.cells pg) es) (Page.this pg) ∧
  Page.dataIndex <$> Page.cells pg' = Page.dataIndex <$> Page.cells pg.
Proof.
  revert pg. induction es as [|e es IH]; intros pg; cbn [Page.run].
  - by intros [= <-].
  - destruct (Page.dispatch e pg) as [pg1|] eqn:Hstep; [|done].
    intros [Hthis Hindexes]%IH.
    pose proof (dispatch_indexes _ _ _ Hstep) as Hsame.
    split; [|congruence].
    rewrite Hthis, (engine_events_ext _ _ es Hsame), (this_dispatch _ _ _ Hstep).
    unfold engine_events. cbn [omap list_omap].
    by destruct (engine_event (Page.cells pg) e).
Qed.

(** The row win of the scenario, played on the page with the sound
    switched off on the way. *)
Lemma page_runs_follow_the_engine_witness :
  ∃ pg',
    Page.run [Page.CellClick 0 true; Page.CellClick 3 false;
              Page.SoundToggleClick; Page.CellClick 1 false;
              Page.CellClick 4 false; Page.CellClick 2 false]
      (Page.construct blank_html) = Some pg' ∧
    Page.this pg' = clicks [Int 0; Int 3; Int 1; Int 4; Int 2] initial.
Proof.
  destruct (Page.run [Page.CellClick 0 true; Page.CellClick 3 false;
                      Page.SoundToggleClick; Page.CellClick 1 false;
                      Page.CellClick 4 false; Page.CellClick 2 false]
              (Page.construct blank_html)) as [pg'|] eqn:Hrun;
    [|by vm_compute in Hrun].
  exists pg'. split; [done|].
  by destruct (page_runs_follow_the_engine _ _ _ Hrun) as [-> _].
Defined.

Lemma winningCells_run (es : list Event) :
  winningCells (run es initial) = [] ∨
  winningCells (run es initial) ∈ winPatterns.
Proof.
  pose proof (consistent_run es initial wellformed_initial consistent_initial)
    as Hcons.
  destruct (wellformed_run es initial wellformed_initial) as [_ Hwin].
  unfold consistent, phase in Hcons.
  destruct (gameIsActive (run es initial)); [left; by apply Hwin|].
  destruct (winningCells (run es initial)) as [|index rest]; [by left|].
  right. by destruct Hcons as [Hin _].
Qed.

(** X14.  [highlightWinningCells] stays within nine cells.  In every
    state the object can reach, [winningCells] holds indices below nine
    only, so on a node list of at least nine cell elements the method finds
    an element for each index it reads: [this.cells[index].classList],
    which throws for an index past the node list, does not. *)
Theorem highlight_finds_every_winning_cell (es : list Event) (pg : Page.t) :
  Page.this pg = run es initial ->
  9 <= length (Page.cells pg) ->
  Forall (fun index => index < 9) (winningCells (Page.this pg)) ∧
  is_Some (Page.highlightWinningCells pg).
Proof.
  intros Hthis Hnine.
  assert (Forall (fun index => index < 9) (winningCells (Page.this pg)))
    as Hbound.
  { rewrite Hthis. destruct (winningCells_run es) as [->|Hin]; [constructor|].
    by apply winPatterns_bound. }
  split; [done|]. unfold Page.highlightWinningCells.
  destruct (highlight_loop_is_Some (winningCells (Page.this pg)) (Page.cells pg))
    as [cs Hcs].
  - eapply Forall_impl; [exact Hbound|].
    intros index Hindex. simpl in *. lia.
  - rewrite Hcs. by eexists.
Qed.

(** The object after X's row win, on the blank document. *)
Lemma highlight_finds_every_winning_cell_witness :
  let es := map CellClick [Int 0; Int 3; Int 1; Int 4; Int 2] in
  let pg := Page.set_this (run es initial) blank_html in
  Forall (fun index => index < 9) (winningCells (Page.this pg)) ∧
  is_Some (Page.highlightWinningCells pg).
Proof.
  cbv zeta.
  apply (highlight_finds_every_winning_cell
           (map CellClick [Int 0; Int 3; Int 1; Int 4; Int 2])).
  - reflexivity.
  - vm_compute. lia.
Defined.

(** With fewer cell elements the highlight can throw: five cells wired
    to the indices 6, 7, 8, 0, 1, and X completes the bottom row. *)
Example highlight_throws_on_a_missing_cell :
  Page.run [Page.CellClick 0 false; Page.CellClick 3 false;
            Page.CellClick 1 false; Page.CellClick 4 false;
            Page.CellClick 2 false]
    (Page.construct
       (Page.set_cells
          ((fun i => Page.mkCell (Int i) "" None ∅) <$> [6; 7; 8; 0; 1]%Z)
          blank_html))
  = None.
Proof. vm_compute. reflexivity. Qed.

(** ** The cells show the board *)

Section page_view.
Implicit Types (pg : Page.t) (g : TicTacToe) (k : nat) (c cell : Page.CellElement)
  (cs : list Page.CellElement) (p : Player).

(** Membership of a class name after one more name was added. *)
Ltac class_added :=
  split; [intros [?|?]; done | intros ?; first [done | by left | by right]].

(** Membership of a class name after [resetGame] removed its three. *)
Ltac class_removed :=
  rewrite elem_of_difference; split;
  [intros [_ Hnot]; destruct Hnot;
   rewrite !elem_of_union, !elem_of_singleton; auto
  |first [done | by intros ?%elem_of_nil]].

Lemma cell_shows_ext g g' k c :
  board g' !! k = board g !! k ->
  winningCells g' = winningCells g ->
  cell_shows g k c -> cell_shows g' k c.
Proof. unfold cell_shows. by intros -> ->. Qed.

Lemma player_class p :
  "player-" +:+ toLowerCase (player_str p)
  = match p with X => "player-x" | O => "player-o" end.
Proof. by destruct p. Qed.

Lemma cell_shows_marked g g' k p cell :
  cell_shows g k cell ->
  board g !! k = Some Empty ->
  board g' !! k = Some (Mark p) ->
  winningCells g' = winningCells g ->
  cell_shows g' k (marked_cell p cell).
Proof.
  unfold cell_shows, marked_cell. cbn [Page.dataIndex Page.textContent
    Page.dataPlayer Page.classList].
  intros (Hi & _ & _ & _ & Hx & Ho & Hw) Hempty -> ->.
  rewrite Hempty in Hx, Ho. rewrite player_class.
  split_and!; [done|done|..].
  - intros q. by destruct p, q.
  - done.
  - rewrite elem_of_union, elem_of_singleton, Hx. destruct p; class_added.
  - rewrite elem_of_union, elem_of_singleton, Ho. destruct p; class_added.
  - rewrite elem_of_union, elem_of_singleton, Hw. destruct p; class_added.
Qed.

Lemma cell_shows_highlighted g g' k c :
  cell_shows g k c ->
  winningCells g = [] ->
  board g' !! k = board g !! k ->
  cell_shows g' k (if decide (k ∈ winningCells g') then highlighted c else c).
Proof.
  unfold cell_shows. intros (Hi & Ht & Hp & Hn & Hx & Ho & Hw) Hnone ->.
  rewrite Hnone in Hw.
  destruct (decide (k ∈ winningCells g')) as [Hin|Hout].
  - unfold highlighted. cbn [Page.set_classList Page.dataIndex Page.textContent
      Page.dataPlayer Page.classList].
    rewrite !elem_of_union, !elem_of_singleton, Hx, Ho.
    split_and!; try done; [class_added..|]. split; [done|by right].
  - split_and!; try done. rewrite Hw. split; [by intros ?%elem_of_nil|done].
Qed.

Lemma cell_shows_reset g k c n :
  Page.dataIndex c = Int (Z.of_nat k) ->
  k < n ->
  board g = replicate n Empty ->
  winningCells g = [] ->
  cell_shows g k (Page.reset_cell c).
Proof.
  intros Hi Hk Hboard Hnone. unfold cell_shows, Page.reset_cell.
  cbn [Page.set_classList Page.set_dataPlayer Page.set_textContent
       Page.dataIndex Page.textContent Page.dataPlayer Page.classList].
  rewrite Hboard, Hnone, lookup_replicate_2 by done.
  split_and!; [done|done|..].
  - intros p. by destruct p.
  - done.
  - class_removed.
  - class_removed.
  - class_removed.
Qed.

Lemma handleCellClick_winningCells g index :
  move_is_valid g index = true ->
  winningCells (handleCellClick index g)
  = match checkWin_loop (marked g index) winPatterns with
    | Some pattern => pattern
    | None => winningCells g
    end.
Proof.
  intros Hvalid. rewrite handleCellClick_valid by done. cbv zeta.
  destruct (checkWin_loop _ _); [done|]. by destruct (board_full _).
Qed.

Lemma cells_show_reset pg g :
  cells_show_board pg ->
  board g = replicate 9 Empty ->
  winningCells g = [] ->
  ∀ k c, (Page.reset_cell <$> Page.cells pg) !! k = Some c -> cell_shows g k c.
Proof.
  intros [Hlen Hcells] Hboard Hnone k c.
  rewrite list_lookup_fmap. destruct (Page.cells pg !! k) as [c0|] eqn:Hk; [|done].
  intros [= <-]. destruct (Hcells k c0 Hk) as [Hi _].
  eapply cell_shows_reset; [done| |done..].
  rewrite <- Hlen. by eapply lookup_lt_Some.
Qed.

(** Every handler keeps the cell elements in step with the board. *)
Lemma cells_show_board_dispatch pg pg' e :
  cells_show_board pg -> wellformed (Page.this pg) ->
  Page.dispatch e pg = Some pg' ->
  cells_show_board pg'.
Proof.
  intros Hshow Hwf Hstep.
  pose proof (dispatch_length _ _ _ Hstep) as Hlen.
  pose proof Hshow as [Hnine Hcells]. pose proof Hwf as [Hboard Hwin].
  split; [congruence|]. clear Hlen.
  assert (board (resetGame (Page.this pg)) = replicate 9 Empty) as Hreset
    by (simpl; by rewrite Hboard).
  destruct e as [k musicPaused| | | | |]; cbn [Page.dispatch] in Hstep.
  - destruct (Page.cells pg !! k) as [cell|] eqn:Hcell;
      [|unfold Page.handleCellClick in Hstep; rewrite Hcell in Hstep;
        by injection Hstep as <-].
    destruct (move_is_valid (Page.this pg) (Page.dataIndex cell)) eqn:Hvalid;
      [|rewrite (page_handleCellClick_invalid _ _ _ _ Hcell Hvalid) in Hstep;
        by injection Hstep as <-].
    rewrite (page_click_eq _ _ _ _ Hcell Hvalid) in Hstep. cbv zeta in Hstep.
    pose proof (handleCellClick_board _ _ Hvalid) as Hbrd.
    pose proof (handleCellClick_winningCells _ _ Hvalid) as Hwc.
    destruct (Hcells k cell Hcell) as [Hindex _].
    destruct (move_is_valid_inv _ _ Hvalid) as (n & Hn & Hempty & Hact & Hset).
    rewrite Hindex in Hn. injection Hn as Hn. apply Nat2Z.inj in Hn. subst n.
    unfold marked in Hbrd. rewrite Hset in Hbrd. specialize (Hwin Hact).
    set (g' := handleCellClick (Page.dataIndex cell) (Page.this pg)) in *.
    (* the cells once the clicked one is marked, against the new board *)
    assert (∀ j c, <[k := marked_cell (currentPlayer (Page.this pg)) cell]>
                     (Page.cells pg) !! j = Some c ->
                   cell_shows (set_winningCells [] g') j c) as Hmarked.
    { intros j c Hj. destruct (decide (j = k)) as [->|Hjk].
      - rewrite list_lookup_insert_eq in Hj by (by eapply lookup_lt_Some).
        injection Hj as <-.
        apply (cell_shows_marked (Page.this pg)); [by apply Hcells|done| |done].
        cbn [board set_winningCells]. rewrite Hbrd.
        apply list_lookup_insert_eq. by eapply lookup_lt_Some.
      - rewrite list_lookup_insert_ne in Hj by done.
        apply (cell_shows_ext (Page.this pg)); [|done|by apply Hcells].
        cbn [board set_winningCells]. rewrite Hbrd.
        by rewrite list_lookup_insert_ne. }
    destruct (checkWin_loop _ _) as [pattern|].
    + destruct (Page.highlight_loop _ _) as [cs'|] eqn:Hloop; [|done].
      injection Hstep as <-. cbn [Page.cells Page.this].
      apply highlight_loop_spec in Hloop as [Hlen' Hhl].
      intros j c Hj.
      destruct (lookup_lt_is_Some_2
                  (<[k := marked_cell (currentPlayer (Page.this pg)) cell]>
                     (Page.cells pg)) j) as [c1 Hc1].
      { rewrite <- Hlen'. by eapply lookup_lt_Some. }
      rewrite (Hhl j c1 Hc1) in Hj. injection Hj as <-. rewrite <- Hwc.
      by apply (cell_shows_highlighted (set_winningCells [] g')); [apply Hmarked|..].
    + assert (∀ j c, cell_shows (set_winningCells [] g') j c -> cell_shows g' j c)
        as Hsame
        by (intros j c; apply cell_shows_ext;
            [done|cbn [winningCells set_winningCells]; congruence]).
      destruct (board_full _); injection Hstep as <-; cbn [Page.cells Page.this];
        intros j c Hj; by apply Hsame, Hmarked.
  - injection Hstep as <-. rewrite resetGame_eq. cbn [Page.cells Page.this].
    by apply cells_show_reset.
  - injection Hstep as <-. rewrite resetAll_eq. cbn [Page.cells Page.this].
    by apply cells_show_reset.
  - injection Hstep as <-. by rewrite toggleSound_eq.
  - injection Hstep as <-. by rewrite toggleMusic_eq.
  - destruct (timeouts (Page.this pg)) as [|tm rest]; injection Hstep as <-;
      [done|]. rewrite timer_eq. cbn [Page.cells Page.this].
    apply cells_show_reset; [done|by destruct tm|by destruct tm].
Qed.

Lemma wellformed_page_dispatch pg pg' e :
  wellformed (Page.this pg) -> Page.dispatch e pg = Some pg' ->
  wellformed (Page.this pg').
Proof.
  intros Hwf Hstep. rewrite (this_dispatch _ _ _ Hstep).
  destruct (engine_event _ _); [by apply wellformed_dispatch|done].
Qed.
End page_view.

Section page_start.
Implicit Types (pg html : Page.t).

Lemma construct_eq html :
  Page.construct html =
    Page.mk initial true true (Page.cells html)
      (Page.turn_message X) (Page.statusClassList html)
      (Page.scoreXText html) (Page.scoreOText html) (Page.scoreDrawText html)
      (Page.soundToggleText html) (Page.musicToggleText html)
      [Page.SetVolume Page.music; Page.Play Page.music].
Proof. by destruct html. Qed.

Lemma blank_cells_show : cells_show_board (Page.construct blank_html).
Proof.
  rewrite construct_eq. split; [reflexivity|]. cbn [Page.cells Page.this].
  intros k c Hk.
  do 9 (destruct k as [|k];
        [injection Hk as <-; unfold cell_shows; cbn;
         rewrite !elem_of_singleton;
         split_and!; try done; try (intros []; done);
         split; first [done | by intros ?%elem_of_nil]|]).
  done.
Qed.
End page_start.

(** X15.  The cell elements always show the board.  On a document where
    they do (nine cells, the [k]-th wired to index [k], text, [data-player]
    and classes in step with the board), no run of events throws, and after
    it each cell's text is its board cell, its [data-player] attribute and
    [player-x]/[player-o] class name the player who marked it, and it
    carries [winning-cell] exactly when it is one of the winning cells. *)
Theorem cells_always_show_the_board (pg : Page.t) (es : list Page.Event) :
  cells_show_board pg ->
  wellformed (Page.this pg) ->
  ∃ pg', Page.run es pg = Some pg' ∧ cells_show_board pg'.
Proof.
  revert pg. induction es as [|e es IH]; intros pg Hshow Hwf; cbn [Page.run].
  - by exists pg.
  - destruct (dispatch_is_Some pg e) as [pg1 Hstep].
    { destruct Hshow as [-> _]. done. }
    rewrite Hstep. apply IH.
    + by eapply cells_show_board_dispatch.
    + by eapply wellformed_page_dispatch.
Qed.

(** The row win of the scenario on the blank document, followed by the
    callback. *)
Lemma cells_always_show_the_board_witness :
  ∃ pg',
    Page.run [Page.CellClick 0 true; Page.CellClick 3 false;
              Page.CellClick 1 false; Page.CellClick 4 false;
              Page.CellClick 2 false; Page.TimerFires; Page.CellClick 8 false]
      (Page.construct blank_html) = Some pg' ∧
    cells_show_board pg'.
Proof.
  apply cells_always_show_the_board.
  - exact blank_cells_show.
  - split; [reflexivity | intros _; reflexivity].
Defined.

(** ** The status line and the score displays *)

Section page_texts.
Implicit Types (pg : Page.t) (k : nat) (cell : Page.CellElement).

Lemma status_of_reset g : status_of (resetGame g) = Page.turn_message X.
Proof. reflexivity. Qed.

Lemma status_dispatch pg pg' e :
  wellformed (Page.this pg) ->
  Page.statusText pg = status_of (Page.this pg) ->
  Page.dispatch e pg = Some pg' ->
  Page.statusText pg' = status_of (Page.this pg').
Proof.
  intros [_ Hwin] Hstatus Hstep.
  destruct e as [k musicPaused| | | | |]; cbn [Page.dispatch] in Hstep.
  - destruct (Page.cells pg !! k) as [cell|] eqn:Hcell;
      [|unfold Page.handleCellClick in Hstep; rewrite Hcell in Hstep;
        by injection Hstep as <-].
    destruct (move_is_valid (Page.this pg) (Page.dataIndex cell)) eqn:Hvalid;
      [|rewrite (page_handleCellClick_invalid _ _ _ _ Hcell Hvalid) in Hstep;
        by injection Hstep as <-].
    rewrite (page_click_eq _ _ _ _ Hcell Hvalid) in Hstep. cbv zeta in Hstep.
    destruct (move_is_valid_inv _ _ Hvalid) as (_ & _ & _ & Hact & _).
    specialize (Hwin Hact).
    destruct (checkWin_loop _ _) as [pattern|] eqn:Hloop.
    + destruct (Page.highlight_loop _ _); [|done]. injection Hstep as <-.
      cbn [Page.statusText Page.this].
      destruct (handleCellClick_win _ _ Hvalid) as (pattern' & Hloop' & ->).
      { apply checkWin_loop_has_line. by eexists. }
      unfold status_of. rewrite phase_handleWin; [done|].
      cbn [winningCells set_winningCells]. by eapply checkWin_loop_nonempty.
    + apply checkWin_loop_no_line in Hloop.
      rewrite (handleCellClick_no_win _ _ Hvalid Hloop) in Hstep.
      destruct (board_full _); injection Hstep as <-;
        cbn [Page.statusText Page.this]; unfold status_of.
      * by rewrite phase_handleDraw.
      * unfold phase. cbn [gameIsActive set_currentPlayer set_board
                             currentPlayer].
        by rewrite Hact.
  - injection Hstep as <-. by rewrite resetGame_eq.
  - injection Hstep as <-. by rewrite resetAll_eq.
  - injection Hstep as <-. by rewrite toggleSound_eq.
  - injection Hstep as <-. by rewrite toggleMusic_eq.
  - destruct (timeouts (Page.this pg)) as [|tm rest]; injection Hstep as <-;
      [done|]. rewrite timer_eq. by destruct tm.
Qed.

Lemma scores_dispatch pg pg' e :
  scores_shown pg -> Page.dispatch e pg = Some pg' -> scores_shown pg'.
Proof.
  intros (Hx & Ho & Hd) Hstep. unfold scores_shown.
  destruct e as [k musicPaused| | | | |]; cbn [Page.dispatch] in Hstep.
  - destruct (Page.cells pg !! k) as [cell|] eqn:Hcell;
      [|unfold Page.handleCellClick in Hstep; rewrite Hcell in Hstep;
        by injection Hstep as <-].
    destruct (move_is_valid (Page.this pg) (Page.dataIndex cell)) eqn:Hvalid;
      [|rewrite (page_handleCellClick_invalid _ _ _ _ Hcell Hvalid) in Hstep;
        by injection Hstep as <-].
    rewrite (page_click_eq _ _ _ _ Hcell Hvalid) in Hstep. cbv zeta in Hstep.
    rewrite (handleCellClick_valid _ _ Hvalid) in Hstep. cbv zeta in Hstep.
    destruct (checkWin_loop _ _) as [pattern|].
    + destruct (Page.highlight_loop _ _); [|done]. injection Hstep as <-.
      cbn [Page.scoreXText Page.scoreOText Page.scoreDrawText Page.this].
      unfold handleWin. cbv zeta.
      cbn [scores set_timeouts set_scores set_gameIsActive set_winningCells
           set_board currentPlayer].
      by destruct (currentPlayer (Page.this pg)).
    + destruct (board_full _); by injection Hstep as <-.
  - injection Hstep as <-. by rewrite resetGame_eq.
  - injection Hstep as <-. by rewrite resetAll_eq.
  - injection Hstep as <-. by rewrite toggleSound_eq.
  - injection Hstep as <-. by rewrite toggleMusic_eq.
  - destruct (timeouts (Page.this pg)) as [|tm rest]; injection Hstep as <-;
      [done|]. rewrite timer_eq. by destruct tm.
Qed.
End page_texts.

(** X16.  The status line always tells the phase.  After any run of
    events on a freshly constructed page, whatever the document, the
    status text is [Player p's turn] for the current player while the game
    is in progress, the win message naming the winner once the game is won,
    and the draw message once it is drawn. *)
Theorem status_line_shows_the_phase
  (html pg' : Page.t) (es : list Page.Event) :
  Page.run es (Page.construct html) = Some pg' ->
  Page.statusText pg' = status_of (Page.this pg').
Proof.
  assert (∀ pg, wellformed (Page.this pg) ->
                Page.statusText pg = status_of (Page.this pg) ->
                Page.run es pg = Some pg' ->
                Page.statusText pg' = status_of (Page.this pg')) as Hrun.
  { induction es as [|e es IH]; intros pg Hwf Hstatus; cbn [Page.run].
    - by intros [= <-].
    - destruct (Page.dispatch e pg) as [pg1|] eqn:Hstep; [|done].
      apply IH; [by eapply wellformed_page_dispatch|by eapply status_dispatch]. }
  apply Hrun; rewrite construct_eq; [apply wellformed_initial|reflexivity].
Qed.

(** After X's winning move the status line names X. *)
Lemma status_line_shows_the_phase_witness :
  ∃ pg',
    Page.run [Page.CellClick 0 true; Page.CellClick 3 false;
              Page.CellClick 1 false; Page.CellClick 4 false;
              Page.CellClick 2 false]
      (Page.construct blank_html) = Some pg' ∧
    Page.statusText pg' = status_of (Page.this pg') ∧
    Page.statusText pg' = "🎉 Player X wins! 🎉"%string.
Proof.
  destruct (Page.run [Page.CellClick 0 true; Page.CellClick 3 false;
                      Page.CellClick 1 false; Page.CellClick 4 false;
                      Page.CellClick 2 false]
              (Page.construct blank_html)) as [pg'|] eqn:Hrun;
    [|by vm_compute in Hrun].
  exists pg'. split_and!; [done|by eapply status_line_shows_the_phase|].
  vm_compute in Hrun. by injection Hrun as <-.
Defined.

(** X17.  The score displays keep showing the counters.  If the three
    displays show the three counters in decimal, they still do after any
    run of events: a win rewrites the winner's display, a draw the draw
    display, reset-all all three, and nothing else touches a counter or a
    display. *)
Theorem score_displays_show_the_counters
  (pg pg' : Page.t) (es : list Page.Event) :
  scores_shown pg ->
  Page.run es pg = Some pg' ->
  scores_shown pg'.
Proof.
  revert pg. induction es as [|e es IH]; intros pg Hshown; cbn [Page.run].
  - by intros [= <-].
  - destruct (Page.dispatch e pg) as [pg1|] eqn:Hstep; [|done].
    apply IH. by eapply scores_dispatch.
Qed.

(** X wins a round, a round is drawn after the callback, and the
    displays read 1, 0 and 1. *)
Lemma score_displays_show_the_counters_witness :
  ∃ pg',
    Page.run (((fun k => Page.CellClick k false) <$> [0; 3; 1; 4; 2])
              ++ [Page.TimerFires]
              ++ ((fun k => Page.CellClick k false) <$> [0; 1; 2; 4; 3; 5; 7; 6; 8]))
      (Page.construct blank_html) = Some pg' ∧
    scores_shown pg' ∧
    (Page.scoreXText pg', Page.scoreOText pg', Page.scoreDrawText pg')
    = ("1", "0", "1")%string.
Proof.
  destruct (Page.run (((fun k => Page.CellClick k false) <$> [0; 3; 1; 4; 2])
              ++ [Page.TimerFires]
              ++ ((fun k => Page.CellClick k false) <$> [0; 1; 2; 4; 3; 5; 7; 6; 8]))
              (Page.construct blank_html)) as [pg'|] eqn:Hrun;
    [|by vm_compute in Hrun].
  exists pg'. split_and!; [done| |].
  - apply (score_displays_show_the_counters (Page.construct blank_html) pg' _)
      in Hrun; [done|].
    rewrite construct_eq. unfold scores_shown. split_and!; vm_compute; reflexivity.
  - vm_compute in Hrun. by injection Hrun as <-.
Defined.

(** ** Sound and music *)

Section page_audio.
Implicit Types (pg : Page.t) (k : nat) (cell : Page.CellElement).

(** The calls one event adds, and what it does to the two toggles. *)
Lemma calls_dispatch pg pg' e :
  Page.dispatch e pg = Some pg' ->
  Page.soundEnabled pg'
  = match e with
    | Page.SoundToggleClick => negb (Page.soundEnabled pg)
    | _ => Page.soundEnabled pg
    end ∧
  Page.musicEnabled pg'
  = match e with
    | Page.MusicToggleClick => negb (Page.musicEnabled pg)
    | _ => Page.musicEnabled pg
    end ∧
  ∃ new,
    Page.calls pg' = Page.calls pg ++ new ∧
    (Page.soundEnabled pg = false ->
     Forall (fun c => is_effect (call_target c) = false) new) ∧
    (Page.musicEnabled pg = false -> e ≠ Page.MusicToggleClick ->
     Forall (fun c => is_effect (call_target c) = true) new).
Proof.
  intros Hstep.
  destruct e as [k musicPaused| | | | |]; cbn [Page.dispatch] in Hstep.
  - destruct (Page.cells pg !! k) as [cell|] eqn:Hcell;
      [|unfold Page.handleCellClick in Hstep; rewrite Hcell in Hstep;
        injection Hstep as <-; split_and!; [done..|];
        exists []; by rewrite app_nil_r].
    destruct (move_is_valid (Page.this pg) (Page.dataIndex cell)) eqn:Hvalid;
      [|rewrite (page_handleCellClick_invalid _ _ _ _ Hcell Hvalid) in Hstep;
        injection Hstep as <-; split_and!; [done..|];
        exists []; by rewrite app_nil_r].
    rewrite (page_click_eq _ _ _ _ Hcell Hvalid) in Hstep. cbv zeta in Hstep.
    unfold click_calls, win_calls in Hstep.
    destruct (checkWin_loop _ _) as [pattern|];
      [destruct (Page.highlight_loop _ _); [|done]|destruct (board_full _)];
      injection Hstep as <-;
      cbn [Page.soundEnabled Page.musicEnabled Page.calls];
      (split_and!; [done..|]); rewrite <- ?app_assoc; eexists;
      (split; [reflexivity|]);
      (split; [intros ->|intros -> _]);
      destruct musicPaused, (Page.soundEnabled pg), (Page.musicEnabled pg);
      cbn [andb app]; repeat constructor.
  - injection Hstep as <-. rewrite resetGame_eq. unfold reset_calls.
    cbn [Page.soundEnabled Page.musicEnabled Page.calls].
    split_and!; [done..|]. eexists. split; [reflexivity|].
    split; [intros _|intros -> _];
      destruct (Page.musicEnabled pg); repeat constructor.
  - injection Hstep as <-. rewrite resetAll_eq. unfold reset_calls.
    cbn [Page.soundEnabled Page.musicEnabled Page.calls].
    split_and!; [done..|]. eexists. split; [reflexivity|].
    split; [intros _|intros -> _];
      destruct (Page.musicEnabled pg); repeat constructor.
  - injection Hstep as <-. rewrite toggleSound_eq.
    cbn [Page.soundEnabled Page.musicEnabled Page.calls].
    split_and!; [done..|]. exists []. by rewrite app_nil_r.
  - injection Hstep as <-. rewrite toggleMusic_eq.
    cbn [Page.soundEnabled Page.musicEnabled Page.calls].
    split_and!; [done..|]. eexists. split; [reflexivity|].
    split; [intros _|done].
    destruct (negb _); repeat constructor.
  - destruct (timeouts (Page.this pg)) as [|tm rest]; injection Hstep as <-.
    + split_and!; [done..|]. exists []. by rewrite app_nil_r.
    + rewrite timer_eq. unfold reset_calls.
      cbn [Page.soundEnabled Page.musicEnabled Page.calls].
      split_and!; [done..|]. eexists. split; [reflexivity|].
      split; [intros _|intros -> _];
        destruct (Page.musicEnabled pg); repeat constructor.
Qed.
End page_audio.

(** X18.  With the sound switched off the page plays no sound effect.
    As long as the sound toggle is not clicked, whatever else happens
    (moves, wins, draws, resets, callbacks, the music toggle), the sound
    stays off and every call made is a call on the music element: the move,
    win and draw sounds are neither rewound nor played. *)
Theorem no_sound_effect_while_sound_is_off
  (pg pg' : Page.t) (es : list Page.Event) :
  Page.soundEnabled pg = false ->
  Forall (fun e => e ≠ Page.SoundToggleClick) es ->
  Page.run es pg = Some pg' ->
  Page.soundEnabled pg' = false ∧
  ∃ new, Page.calls pg' = Page.calls pg ++ new ∧
         Forall (fun c => is_effect (call_target c) = false) new.
Proof.
  revert pg. induction es as [|e es IH]; intros pg Hoff Hes; cbn [Page.run].
  - intros [= <-]. split; [done|]. exists []. by rewrite app_nil_r.
  - apply Forall_cons in Hes as [He Hes].
    destruct (Page.dispatch e pg) as [pg1|] eqn:Hstep; [|done].
    destruct (calls_dispatch _ _ _ Hstep)
      as (Hsound & _ & new & Hcalls & Hquiet & _).
    assert (Page.soundEnabled pg1 = false) as Hoff1
      by (rewrite Hsound; by destruct e).
    intros (Hoff' & new' & Hcalls' & Hquiet')%IH; [|done..].
    split; [done|]. exists (new ++ new'). split.
    + by rewrite Hcalls', Hcalls, app_assoc.
    + apply Forall_app. split; [by apply Hquiet|done].
Qed.

(** The sound is switched off, then X wins a round and the restart
    button is clicked: only the music element was called. *)
Lemma no_sound_effect_while_sound_is_off_witness :
  let pg := Page.toggleSound (Page.construct blank_html) in
  ∃ pg',
    Page.run [Page.CellClick 0 true; Page.CellClick 3 false;
              Page.CellClick 1 false; Page.CellClick 4 false;
              Page.CellClick 2 false; Page.RestartClick] pg = Some pg' ∧
    Page.soundEnabled pg' = false ∧
    ∃ new, Page.calls pg' = Page.calls pg ++ new ∧
           Forall (fun c => is_effect (call_target c) = false) new.
Proof.
  cbv zeta.
  destruct (Page.run [Page.CellClick 0 true; Page.CellClick 3 false;
                      Page.CellClick 1 false; Page.CellClick 4 false;
                      Page.CellClick 2 false; Page.RestartClick]
              (Page.toggleSound (Page.construct blank_html)))
    as [pg'|] eqn:Hrun; [|by vm_compute in Hrun].
  exists pg'. split; [done|].
  apply (no_sound_effect_while_sound_is_off
           (Page.toggleSound (Page.construct blank_html)) pg' _ eq_refl)
    in Hrun; [done|].
  repeat constructor; discriminate.
Defined.

(** X19.  With the music switched off the page leaves the music element
    alone.  As long as the music toggle is not clicked, the music stays
    off and no call of any handler targets the music element: it is not
    started by a click, a reset or a callback, and not paused by a win. *)
Theorem music_element_untouched_while_music_is_off
  (pg pg' : Page.t) (es : list Page.Event) :
  Page.musicEnabled pg = false ->
  Forall (fun e => e ≠ Page.MusicToggleClick) es ->
  Page.run es pg = Some pg' ->
  Page.musicEnabled pg' = false ∧
  ∃ new, Page.calls pg' = Page.calls pg ++ new ∧
         Forall (fun c => is_effect (call_target c) = true) new.
Proof.
  revert pg. induction es as [|e es IH]; intros pg Hoff Hes; cbn [Page.run].
  - intros [= <-]. split; [done|]. exists []. by rewrite app_nil_r.
  - apply Forall_cons in Hes as [He Hes].
    destruct (Page.dispatch e pg) as [pg1|] eqn:Hstep; [|done].
    destruct (calls_dispatch _ _ _ Hstep)
      as (_ & Hmusic & new & Hcalls & _ & Hquiet).
    assert (Page.musicEnabled pg1 = false) as Hoff1
      by (rewrite Hmusic; by destruct e).
    intros (Hoff' & new' & Hcalls' & Hquiet')%IH; [|done..].
    split; [done|]. exists (new ++ new'). split.
    + by rewrite Hcalls', Hcalls, app_assoc.
    + apply Forall_app. split; [by apply Hquiet|done].
Qed.

(** The music is switched off, then X wins a round with the sound on
    and the callback fires. *)
Lemma music_element_untouched_while_music_is_off_witness :
  let pg := Page.toggleMusic (Page.construct blank_html) in
  ∃ pg',
    Page.run [Page.CellClick 0 true; Page.CellClick 3 true;
              Page.CellClick 1 true; Page.CellClick 4 true;
              Page.CellClick 2 true; Page.TimerFires] pg = Some pg' ∧
    Page.musicEnabled pg' = false ∧
    ∃ new, Page.calls pg' = Page.calls pg ++ new ∧
           Forall (fun c => is_effect (call_target c) = true) new.
Proof.
  cbv zeta.
  destruct (Page.run [Page.CellClick 0 true; Page.CellClick 3 true;
                      Page.CellClick 1 true; Page.CellClick 4 true;
                      Page.CellClick 2 true; Page.TimerFires]
              (Page.toggleMusic (Page.construct blank_html)))
    as [pg'|] eqn:Hrun; [|by vm_compute in Hrun].
  exists pg'. split; [done|].
  apply (music_element_untouched_while_music_is_off
           (Page.toggleMusic (Page.construct blank_html)) pg' _ eq_refl)
    in Hrun; [done|].
  repeat constructor; discriminate.
Defined.

(** ** The queue of auto-reset callbacks *)

(** X8.  No handler cancels a pending auto-reset callback (the ones
    registered with [setTimeout(..., 2000)] by [handleWin] and
    [handleDraw]).  When the handler of a cell click, of restart, of
    reset-all or of a toggle returns without throwing, the queue is as it
    was, in order, with exactly one callback appended if the event ended a
    round and none otherwise; only the firing of the oldest callback
    removes it. *)
Theorem reset_callbacks_are_never_cancelled
  (pg pg' : Page.t) (e : Page.Event) :
  Page.dispatch e pg = Some pg' ->
  match e with
  | Page.TimerFires =>
      timeouts (Page.this pg') = tail (timeouts (Page.this pg))
  | _ =>
      ∃ new, timeouts (Page.this pg') = timeouts (Page.this pg) ++ new ∧
             length new
             = if round_ended (Page.this pg) (Page.this pg') then 1 else 0
  end.
Proof.
  intros Hstep. rewrite (this_dispatch _ _ _ Hstep).
  assert (∃ new, timeouts (Page.this pg) = timeouts (Page.this pg) ++ new ∧
                 length new
                 = if round_ended (Page.this pg) (Page.this pg) then 1 else 0)
    as Hsame.
  { exists []. rewrite app_nil_r. unfold round_ended.
    by destruct (gameIsActive (Page.this pg)). }
  destruct e as [k musicPaused| | | | |]; cbn [engine_event]; try done.
  - destruct (Page.cells pg !! k) as [cell|]; [|done].
    apply (dispatch_timeouts (Page.this pg) (CellClick (Page.dataIndex cell))).
  - apply (dispatch_timeouts (Page.this pg) RestartClick).
  - apply (dispatch_timeouts (Page.this pg) ResetAllClick).
  - apply (dispatch_timeouts (Page.this pg) TimerFires).
Qed.

(** X's winning click on the blank document appends the callback of
    the won round. *)
Lemma reset_callbacks_are_never_cancelled_witness :
  let pg := Page.set_this (clicks [Int 0; Int 3; Int 1; Int 4] initial)
              (Page.construct blank_html) in
  ∃ pg',
    Page.dispatch (Page.CellClick 2 false) pg = Some pg' ∧
    ∃ new, timeouts (Page.this pg') = timeouts (Page.this pg) ++ new ∧
           length new
           = if round_ended (Page.this pg) (Page.this pg') then 1 else 0.
Proof.
  cbv zeta.
  destruct (Page.dispatch (Page.CellClick 2 false)
              (Page.set_this (clicks [Int 0; Int 3; Int 1; Int 4] initial)
                 (Page.construct blank_html))) as [pg'|] eqn:Hstep;
    [|by vm_compute in Hstep].
  exists pg'. split; [done|].
  exact (reset_callbacks_are_never_cancelled _ _ _ Hstep).
Defined.

(** ** The win styling of the status line *)

Section page_status_class.
Implicit Types (pg : Page.t).

End page_status_class.


